(** * A reference-counted shared-ownership pointer: model and properties

    The development embeds [detail::ControlBlock] and [SharedPtr<T>] of
    [assignment.cpp].  Handles are objects living in a store of named
    variables, control blocks live in a heap of dynamically allocated
    blocks, and every member function is a computation in a small
    state-and-failure monad.  The counter is a [std::size_t]: a 64-bit
    unsigned integer whose arithmetic wraps around. *)

From Stdlib Require Import ZArith Lia.
From stdpp Require Import gmap list.

(** ** Machine data *)

(** A raw pointer [T*] to a managed object is an address; [nullptr] is 0. *)
Definition ptr_t := Z.
Definition nullptr : ptr_t := 0%Z.

(** Address of a heap-allocated control block ([control_block_t*] is
    [option loc], with [None] for the null pointer). *)
Definition loc := positive.

(** Identity of a [SharedPtr] object (the storage a [this] points to). *)
Definition var := nat.

(** [std::size_t] arithmetic. *)
Definition size_modulus : Z := (2 ^ 64)%Z.
Definition wrap (z : Z) : Z := (z mod size_modulus)%Z.

(** [deleter_t]: either [std::default_delete] or a caller-supplied callable,
    identified by a tag. *)
Inductive deleter_t :=
| default_delete
| custom_deleter (tag : nat).

Module detail.

(** [erased_deleter_t]: the nullary closure built by [make_deleter],
    capturing the deleter and the pointer it will be applied to. *)
Record erased_deleter_t := {
  captured_deleter : deleter_t;
  captured_ptr : ptr_t
}.

Definition make_deleter (deleter : deleter_t) (ptr : ptr_t) : erased_deleter_t :=
  {| captured_deleter := deleter; captured_ptr := ptr |}.

Record ControlBlock := {
  m_count : Z;
  m_deleter : erased_deleter_t
}.

(** [explicit ControlBlock(erased_deleter_t deleter)]. *)
Definition ControlBlock_ctor (deleter : erased_deleter_t) : ControlBlock :=
  {| m_count := 1; m_deleter := deleter |}.

Definition get_count (cb : ControlBlock) : Z := m_count cb.

(** [m_count.fetch_sub(1)]: the value before the subtraction and the
    updated block. *)
Definition fetch_sub_1 (cb : ControlBlock) : Z * ControlBlock :=
  (m_count cb,
   {| m_count := wrap (m_count cb - 1); m_deleter := m_deleter cb |}).

Definition increment_count (cb : ControlBlock) : ControlBlock :=
  {| m_count := wrap (m_count cb + 1); m_deleter := m_deleter cb |}.

(** As written in the source, the body is [++m_count]. No member of
    [SharedPtr] calls it. *)
Definition decrement_count (cb : ControlBlock) : ControlBlock :=
  {| m_count := wrap (m_count cb + 1); m_deleter := m_deleter cb |}.

End detail.
Import detail.

Record SharedPtr := {
  m_control_block : option loc;
  m_ptr : ptr_t
}.

(** ** Program state *)

(** [vars]: the live handle objects; [heap]: the live control blocks;
    [deleted]: the deletion actions invoked so far, most recent first;
    [avail]: how many more control blocks the free store can provide
    before [new] throws [std::bad_alloc]. *)
Record state := {
  vars : gmap var SharedPtr;
  heap : gmap loc ControlBlock;
  deleted : list erased_deleter_t;
  avail : nat
}.

Definition set_vars (f : gmap var SharedPtr → gmap var SharedPtr) (s : state) : state :=
  {| vars := f (vars s); heap := heap s; deleted := deleted s; avail := avail s |}.

Definition set_heap (f : gmap loc ControlBlock → gmap loc ControlBlock) (s : state) : state :=
  {| vars := vars s; heap := f (heap s); deleted := deleted s; avail := avail s |}.

Definition initial_state (n : nat) : state :=
  {| vars := ∅; heap := ∅; deleted := []; avail := n |}.

(** ** The monad of member functions

    A call returns normally ([Ret]), leaves by a [std::bad_alloc]
    exception carrying the state at the throw point ([Throw]), or has
    undefined behaviour ([Undefined]: a null or dangling control-block
    pointer is dereferenced, or an object that does not exist is read). *)
Inductive outcome (A : Type) :=
| Ret (a : A) (s : state)
| Throw (s : state)
| Undefined.
Arguments Ret {A} a s.
Arguments Throw {A} s.
Arguments Undefined {A}.

Definition M (A : Type) : Type := state → outcome A.

Definition ret {A} (a : A) : M A := λ s, Ret a s.

Definition bind {A B} (m : M A) (k : A → M B) : M B :=
  λ s, match m s with
       | Ret a s' => k a s'
       | Throw s' => Throw s'
       | Undefined => Undefined
       end.

Declare Scope cpp_scope.
Delimit Scope cpp_scope with cpp.
Notation "x <- m ;; k" := (bind m (λ x, k))
  (at level 100, m at next level, right associativity) : cpp_scope.
Notation "m ;; k" := (bind m (λ _, k))
  (at level 100, right associativity) : cpp_scope.
Open Scope cpp_scope.

(** *** Primitive accesses *)

(** Reading the members of the handle object [x]. *)
Definition load_handle (x : var) : M SharedPtr :=
  λ s, match vars s !! x with
       | Some h => Ret h s
       | None => Undefined
       end.

(** Member initialisation of the handle object [x]. *)
Definition init_handle (x : var) (h : SharedPtr) : M unit :=
  λ s, Ret tt (set_vars <[x := h]> s).

(** [x.m_control_block = p]. *)
Definition set_control_block (x : var) (p : option loc) : M unit :=
  h <- load_handle x ;;
  init_handle x {| m_control_block := p; m_ptr := m_ptr h |}.

(** [x.m_ptr = p]. *)
Definition set_ptr (x : var) (p : ptr_t) : M unit :=
  h <- load_handle x ;;
  init_handle x {| m_control_block := m_control_block h; m_ptr := p |}.

(** The storage of [x] is given back (end of an automatic variable). *)
Definition release_storage (x : var) : M unit :=
  λ s, Ret tt (set_vars (delete x) s).

(** [*p] for a control-block pointer [p]. *)
Definition load_block (p : option loc) : M (loc * ControlBlock) :=
  λ s, match p with
       | None => Undefined
       | Some l => match heap s !! l with
                   | Some cb => Ret (l, cb) s
                   | None => Undefined
                   end
       end.

Definition store_block (l : loc) (cb : ControlBlock) : M unit :=
  λ s, Ret tt (set_heap <[l := cb]> s).

(** [new detail::ControlBlock{deleter}]. *)
Definition new_ControlBlock (deleter : erased_deleter_t) : M loc :=
  λ s, match avail s with
       | O => Throw s
       | S n =>
           let l := fresh (dom (heap s)) in
           Ret l {| vars := vars s;
                    heap := <[l := ControlBlock_ctor deleter]> (heap s);
                    deleted := deleted s;
                    avail := n |}
       end.

(** [delete p] for a control-block pointer [p]: nothing to do for a null
    pointer, and a block can be freed only once. *)
Definition delete_ControlBlock (p : option loc) : M unit :=
  λ s, match p with
       | None => Ret tt s
       | Some l =>
           match heap s !! l with
           | Some _ => Ret tt {| vars := vars s;
                                 heap := delete l (heap s);
                                 deleted := deleted s;
                                 avail := S (avail s) |}
           | None => Undefined
           end
       end.

(** [p->delete_owned()], that is [m_deleter()]. *)
Definition delete_owned (p : option loc) : M unit :=
  b <- load_block p ;;
  λ s, Ret tt {| vars := vars s;
                 heap := heap s;
                 deleted := m_deleter b.2 :: deleted s;
                 avail := avail s |}.

(** [p->increment_count()]. *)
Definition call_increment_count (p : option loc) : M unit :=
  b <- load_block p ;;
  store_block b.1 (increment_count b.2).

(** [p->fetch_sub_1()]. *)
Definition call_fetch_sub_1 (p : option loc) : M Z :=
  b <- load_block p ;;
  store_block b.1 (fetch_sub_1 b.2).2 ;;
  ret (fetch_sub_1 b.2).1.

(** [p->get_count()]. *)
Definition call_get_count (p : option loc) : M Z :=
  b <- load_block p ;;
  ret (get_count b.2).

(** ** [SharedPtr<T>]

    Every member function takes the identity [this] of the object it is
    called on; a reference parameter is the identity of the object it
    refers to, so two parameters may name the same object. *)

Definition empty_handle : SharedPtr :=
  {| m_control_block := None; m_ptr := nullptr |}.

(** [explicit SharedPtr() noexcept]. *)
Definition SharedPtr_default (this : var) : M unit :=
  init_handle this {| m_control_block := None; m_ptr := nullptr |}.

(** [explicit SharedPtr(std::nullptr_t) noexcept]. *)
Definition SharedPtr_nullptr (this : var) : M unit :=
  init_handle this {| m_control_block := None; m_ptr := nullptr |}.

(** [explicit SharedPtr(ptr_t instance, deleter_t deleter = default_delete)]. *)
Definition SharedPtr_owning (this : var) (instance : ptr_t) (deleter : deleter_t) : M unit :=
  cb <- new_ControlBlock (make_deleter deleter instance) ;;
  init_handle this {| m_control_block := Some cb; m_ptr := instance |}.

(** [explicit SharedPtr(const SharedPtr& other) noexcept]. *)
Definition SharedPtr_copy (this other : var) : M unit :=
  o <- load_handle other ;;
  init_handle this {| m_control_block := m_control_block o; m_ptr := m_ptr o |} ;;
  h <- load_handle this ;;
  call_increment_count (m_control_block h).

(** [explicit SharedPtr(const SharedPtr<U>& other) noexcept], the
    conversion from a handle to mutable into a handle to const. *)
Definition SharedPtr_copy_const (this other : var) : M unit :=
  o <- load_handle other ;;
  init_handle this {| m_control_block := m_control_block o; m_ptr := m_ptr o |} ;;
  h <- load_handle this ;;
  call_increment_count (m_control_block h).

(** [explicit SharedPtr(SharedPtr<U>&& other) noexcept]. *)
Definition SharedPtr_move_const (this other : var) : M unit :=
  o <- load_handle other ;;
  init_handle this {| m_control_block := m_control_block o; m_ptr := m_ptr o |} ;;
  set_control_block other None ;;
  set_ptr other nullptr.

(** [explicit SharedPtr(SharedPtr&& other) noexcept]. *)
Definition SharedPtr_move (this other : var) : M unit :=
  o <- load_handle other ;;
  init_handle this {| m_control_block := m_control_block o; m_ptr := m_ptr o |} ;;
  set_control_block other None ;;
  set_ptr other nullptr.

(** [void reset() noexcept]. *)
Definition reset (this : var) : M unit :=
  h <- load_handle this ;;
  match m_control_block h with
  | Some _ =>
      count_prior_to_decrement <- call_fetch_sub_1 (m_control_block h) ;;
      if (1 =? count_prior_to_decrement)%Z then
        delete_owned (m_control_block h) ;;
        delete_ControlBlock (m_control_block h) ;;
        set_control_block this None ;;
        set_ptr this nullptr
      else ret tt
  | None => ret tt
  end.

(** [ptr_t get() const noexcept]. *)
Definition get (this : var) : M ptr_t :=
  h <- load_handle this ;;
  ret (m_ptr h).

(** [friend bool operator==(const SharedPtr& lhs, const SharedPtr& rhs)]. *)
Definition operator_eq (lhs rhs : var) : M bool :=
  l <- get lhs ;;
  r <- get rhs ;;
  ret (l =? r)%Z.

(** [SharedPtr& operator=(std::nullptr_t) noexcept]. *)
Definition operator_assign_nullptr (this : var) : M unit :=
  reset this.

(** [SharedPtr& operator=(ptr_t ptr)]. *)
Definition operator_assign_ptr (this : var) (ptr : ptr_t) : M unit :=
  g <- get this ;;
  if negb (g =? ptr)%Z then
    new_control_block <- new_ControlBlock (make_deleter default_delete ptr) ;;
    reset this ;;
    set_control_block this (Some new_control_block) ;;
    set_ptr this ptr
  else ret tt.

(** [~SharedPtr()]. *)
Definition destructor (this : var) : M unit :=
  reset this.

(** [SharedPtr& operator=(const SharedPtr& other) noexcept]: the handle
    is destroyed in place and copy-constructed again from [other]. *)
Definition operator_assign (this other : var) : M unit :=
  e <- operator_eq this other ;;
  if negb e then
    destructor this ;;
    SharedPtr_copy this other
  else ret tt.

(** [std::size_t use_count() const noexcept]. *)
Definition use_count (this : var) : M Z :=
  h <- load_handle this ;;
  match m_control_block h with
  | Some _ => call_get_count (m_control_block h)
  | None => ret 0%Z
  end.

(** [friend void swap(SharedPtr& lhs, SharedPtr& rhs) noexcept]:
    [std::swap] of the control-block members, then of the pointer members. *)
Definition swap (lhs rhs : var) : M unit :=
  l <- load_handle lhs ;;
  r <- load_handle rhs ;;
  set_control_block lhs (m_control_block r) ;;
  set_control_block rhs (m_control_block l) ;;
  l' <- load_handle lhs ;;
  r' <- load_handle rhs ;;
  set_ptr lhs (m_ptr r') ;;
  set_ptr rhs (m_ptr l').

(** An automatic handle goes out of scope: its destructor runs and its
    storage is given back. *)
Definition leave_scope (this : var) : M unit :=
  destructor this ;;
  release_storage this.

(** ** Client programs *)

(** One call of the public interface. *)
Inductive call :=
| CDefault (this : var)
| CNullptr (this : var)
| COwning (this : var) (instance : ptr_t) (deleter : deleter_t)
| CCopy (this other : var)
| CCopyConst (this other : var)
| CMoveConst (this other : var)
| CMove (this other : var)
| CReset (this : var)
| CAssignNullptr (this : var)
| CAssignPtr (this : var) (ptr : ptr_t)
| CAssign (this other : var)
| CSwap (lhs rhs : var)
| CLeaveScope (this : var).

Definition exec (c : call) : M unit :=
  match c with
  | CDefault this => SharedPtr_default this
  | CNullptr this => SharedPtr_nullptr this
  | COwning this instance deleter => SharedPtr_owning this instance deleter
  | CCopy this other => SharedPtr_copy this other
  | CCopyConst this other => SharedPtr_copy_const this other
  | CMoveConst this other => SharedPtr_move_const this other
  | CMove this other => SharedPtr_move this other
  | CReset this => reset this
  | CAssignNullptr this => operator_assign_nullptr this
  | CAssignPtr this ptr => operator_assign_ptr this ptr
  | CAssign this other => operator_assign this other
  | CSwap lhs rhs => swap lhs rhs
  | CLeaveScope this => leave_scope this
  end.

Fixpoint run (cs : list call) : M unit :=
  match cs with
  | [] => ret tt
  | c :: cs' => exec c ;; run cs'
  end.

(** The state a computation stops in, whether it returns or throws. *)
Definition final_state {A} (o : outcome A) : option state :=
  match o with
  | Ret _ s => Some s
  | Throw s => Some s
  | Undefined => None
  end.

(** Raw pointers handed to the interface by a call. *)
Definition raw_pointer_of (c : call) : option ptr_t :=
  match c with
  | COwning _ instance _ => Some instance
  | CAssignPtr _ ptr => Some ptr
  | _ => None
  end.

Definition passes_no_null (c : call) : Prop :=
  raw_pointer_of c ≠ Some nullptr.

(** The handle invariant of the data model. *)
Definition handle_invariant (h : SharedPtr) : Prop :=
  m_ptr h = nullptr ↔ m_control_block h = None.

(** [N] copies of the handle [x], one into each variable of [ys]. *)
Fixpoint copies (x : var) (ys : list var) : M unit :=
  match ys with
  | [] => ret tt
  | y :: ys' => SharedPtr_copy y x ;; copies x ys'
  end.

(** The variables of [ys] go out of scope, one after the other. *)
Fixpoint leave_scopes (ys : list var) : M unit :=
  match ys with
  | [] => ret tt
  | y :: ys' => leave_scope y ;; leave_scopes ys'
  end.

(** Resetting the variables of [ys], one after the other. *)
Fixpoint resets (ys : list var) : M unit :=
  match ys with
  | [] => ret tt
  | y :: ys' => reset y ;; resets ys'
  end.

(** What holds of every state a client program can reach in [k] calls:
    each live handle satisfies the handle invariant and, as long as [k]
    is below the modulus of [std::size_t], each live control block has a
    counter between 1 and [k]. *)
Definition state_invariant (k : Z) (s : state) : Prop :=
  (∀ x h, vars s !! x = Some h → handle_invariant h) ∧
  ((k < size_modulus)%Z →
   ∀ l cb, heap s !! l = Some cb → (1 ≤ m_count cb ≤ k)%Z).

(** The handles named by [zs] all share the block at [l] for the object [p]. *)
Definition all_share (zs : list var) (l : loc) (p : ptr_t) (s : state) : Prop :=
  ∀ z, z ∈ zs → vars s !! z = Some {| m_control_block := Some l; m_ptr := p |}.

(** ** Further client programs and predicates *)

(** The body of a block that declares a copy of [x] named [y] and ends:
    [{ SharedPtr<T> y{x}; }]. *)
Definition scoped_copy (x y : var) : M unit :=
  SharedPtr_copy y x ;;
  leave_scope y.

(** [for (int i = 0; i < n; ++i) { SharedPtr<T> y{x}; }]. *)
Fixpoint scoped_copy_loop (n : nat) (x y : var) : M unit :=
  match n with
  | O => ret tt
  | S n' => scoped_copy x y ;; scoped_copy_loop n' x y
  end.

(** The calls that construct, copy, move or swap handles: none of them
    goes through [reset]. *)
Definition acquires_only (c : call) : bool :=
  match c with
  | CDefault _ | CNullptr _ | COwning _ _ _ | CCopy _ _ | CCopyConst _ _
  | CMoveConst _ _ | CMove _ _ | CSwap _ _ => true
  | CReset _ | CAssignNullptr _ | CAssignPtr _ _ | CAssign _ _
  | CLeaveScope _ => false
  end.

(** As long as [k] is below the modulus of [std::size_t], every live
    control block has a counter between 1 and [k]. *)
Definition counter_bounds (k : Z) (s : state) : Prop :=
  (k < size_modulus)%Z →
  ∀ l cb, heap s !! l = Some cb → (1 ≤ m_count cb ≤ k)%Z.

(** ** Sample states *)

(** One handle, variable 0, sole owner of the object at address 100
    through the control block at address 1, created with [deleter];
    the free store can still provide [n] control blocks. *)
Definition sole_owner_state (deleter : deleter_t) (n : nat) : state :=
  {| vars := {[ 0 := {| m_control_block := Some 1%positive; m_ptr := 100%Z |} ]};
     heap := {[ 1%positive := ControlBlock_ctor (make_deleter deleter 100%Z) ]};
     deleted := [];
     avail := n |}.

(** Two handles, variables 0 and 1, sole owners of the objects at
    addresses 100 and 200. *)
Definition two_owners_state : state :=
  {| vars := <[ 1 := {| m_control_block := Some 2%positive; m_ptr := 200%Z |} ]>
               {[ 0 := {| m_control_block := Some 1%positive; m_ptr := 100%Z |} ]};
     heap := <[ 2%positive := ControlBlock_ctor (make_deleter default_delete 200%Z) ]>
               {[ 1%positive := ControlBlock_ctor (make_deleter default_delete 100%Z) ]};
     deleted := [];
     avail := 0 |}.

(** Two handles, variables 0 and 1, on the same object, after the
    second one has been reset: the counter is back to 1. *)
Definition after_shared_reset_state : state :=
  {| vars := <[ 1 := {| m_control_block := Some 1%positive; m_ptr := 100%Z |} ]>
               {[ 0 := {| m_control_block := Some 1%positive; m_ptr := 100%Z |} ]};
     heap := {[ 1%positive := ControlBlock_ctor (make_deleter default_delete 100%Z) ]};
     deleted := [];
     avail := 0 |}.

(** Two handles, variables 0 and 1, sharing the object at address 100:
    the counter is 2 and the deletion action is [deleter]. *)
Definition two_sharers_state (deleter : deleter_t) : state :=
  {| vars := <[ 1 := {| m_control_block := Some 1%positive; m_ptr := 100%Z |} ]>
               {[ 0 := {| m_control_block := Some 1%positive; m_ptr := 100%Z |} ]};
     heap := {[ 1%positive := {| m_count := 2;
                                 m_deleter := make_deleter deleter 100%Z |} ]};
     deleted := [];
     avail := 1 |}.

(** Variable 0 is the sole owner of the object at address 100 and
    variable 1 is an empty handle. *)
Definition owner_and_empty_state : state :=
  {| vars := <[ 1 := empty_handle ]>
               {[ 0 := {| m_control_block := Some 1%positive; m_ptr := 100%Z |} ]};
     heap := {[ 1%positive := ControlBlock_ctor (make_deleter default_delete 100%Z) ]};
     deleted := [];
     avail := 0 |}.

(** Variable 0 holds a control block for a null pointer and variable 1
    is the sole owner of the object at address 200. *)
Definition null_owner_state : state :=
  {| vars := <[ 1 := {| m_control_block := Some 2%positive; m_ptr := 200%Z |} ]>
               {[ 0 := {| m_control_block := Some 1%positive; m_ptr := nullptr |} ]};
     heap := <[ 2%positive := ControlBlock_ctor (make_deleter default_delete 200%Z) ]>
               {[ 1%positive := ControlBlock_ctor (make_deleter default_delete nullptr) ]};
     deleted := [];
     avail := 0 |}.

(** ** Equations of the member functions

    Each member function is rewritten into the outcome it computes, by
    cases on the handles and blocks it reads. *)

#[local] Arguments Z.eqb : simpl never.
#[local] Arguments wrap : simpl never.

(** Lookups in a map that has just been written. *)
Ltac read_back :=
  repeat (first [ rewrite lookup_insert_eq
                | rewrite lookup_insert_ne by done ]; cbn).

Lemma wrap_small (z : Z) : (0 ≤ z < size_modulus)%Z → wrap z = z.
Proof. intros Hz. unfold wrap. by apply Z.mod_small. Qed.

(** [decrement_count] does what [increment_count] does. *)
Lemma decrement_count_increments (cb : ControlBlock) :
  decrement_count cb = increment_count cb.
Proof. reflexivity. Qed.

Lemma handle_eta (h : SharedPtr) :
  {| m_control_block := m_control_block h; m_ptr := m_ptr h |} = h.
Proof. by destruct h. Qed.

Lemma reset_unfold (this : var) (s : state) :
  reset this s =
  match vars s !! this with
  | None => Undefined
  | Some h =>
      match m_control_block h with
      | None => Ret tt s
      | Some l =>
          match heap s !! l with
          | None => Undefined
          | Some cb =>
              if (1 =? m_count cb)%Z then
                Ret tt {| vars := <[this := empty_handle]> (vars s);
                          heap := delete l (heap s);
                          deleted := m_deleter cb :: deleted s;
                          avail := S (avail s) |}
              else Ret tt (set_heap <[l := (fetch_sub_1 cb).2]> s)
          end
      end
  end.
Proof.
  unfold reset, bind, load_handle.
  destruct (vars s !! this) as [h|] eqn:Hx; [|done].
  destruct (m_control_block h) as [l|] eqn:Hcb; [|done].
  unfold call_fetch_sub_1, bind, load_block, store_block, ret.
  destruct (heap s !! l) as [cb|] eqn:Hl; [|done].
  cbn. destruct (1 =? m_count cb)%Z eqn:Hc; [|done].
  unfold delete_owned, delete_ControlBlock, bind, load_block. cbn.
  read_back.
  unfold set_control_block, set_ptr, bind, load_handle, init_handle. cbn.
  rewrite Hx. cbn. read_back.
  unfold set_vars. cbn. by rewrite insert_insert_eq, delete_insert_eq.
Qed.

Lemma SharedPtr_copy_unfold (this other : var) (s : state) :
  SharedPtr_copy this other s =
  match vars s !! other with
  | None => Undefined
  | Some o =>
      match m_control_block o with
      | None => Undefined
      | Some l =>
          match heap s !! l with
          | None => Undefined
          | Some cb =>
              Ret tt {| vars := <[this := o]> (vars s);
                        heap := <[l := increment_count cb]> (heap s);
                        deleted := deleted s;
                        avail := avail s |}
          end
      end
  end.
Proof.
  unfold SharedPtr_copy, bind, load_handle, init_handle.
  destruct (vars s !! other) as [o|] eqn:Ho; [|done].
  cbn. rewrite lookup_insert_eq. cbn.
  unfold call_increment_count, bind, load_block, store_block. cbn.
  destruct (m_control_block o) as [l|] eqn:Hcb; [|done].
  destruct (heap s !! l) as [cb|] eqn:Hl; [|done].
  cbn. unfold set_heap, set_vars. cbn.
  by rewrite <- Hcb, handle_eta.
Qed.

Lemma SharedPtr_copy_const_unfold (this other : var) (s : state) :
  SharedPtr_copy_const this other s = SharedPtr_copy this other s.
Proof. reflexivity. Qed.

Lemma SharedPtr_move_unfold (this other : var) (s : state) :
  SharedPtr_move this other s =
  match vars s !! other with
  | None => Undefined
  | Some o =>
      Ret tt (set_vars (λ v, <[other := empty_handle]> (<[this := o]> v)) s)
  end.
Proof.
  unfold SharedPtr_move, bind, load_handle, init_handle.
  destruct (vars s !! other) as [o|] eqn:Ho; [|done].
  unfold set_control_block, set_ptr, bind, load_handle, init_handle. cbn.
  destruct (decide (this = other)) as [->|Hne].
  - rewrite !lookup_insert_eq. cbn. rewrite !lookup_insert_eq. cbn.
    unfold set_vars. cbn. by rewrite handle_eta, !insert_insert_eq.
  - rewrite lookup_insert_ne, Ho by done. cbn. rewrite lookup_insert_eq. cbn.
    unfold set_vars. cbn. by rewrite handle_eta, !insert_insert_eq.
Qed.

Lemma SharedPtr_move_const_unfold (this other : var) (s : state) :
  SharedPtr_move_const this other s = SharedPtr_move this other s.
Proof. reflexivity. Qed.

Lemma swap_unfold (lhs rhs : var) (s : state) :
  swap lhs rhs s =
  match vars s !! lhs, vars s !! rhs with
  | Some l, Some r =>
      Ret tt (set_vars (λ v, <[rhs := l]> (<[lhs := r]> v)) s)
  | _, _ => Undefined
  end.
Proof.
  unfold swap, bind, load_handle.
  destruct (vars s !! lhs) as [l|] eqn:Hl; [|done].
  destruct (vars s !! rhs) as [r|] eqn:Hr; [|done].
  unfold set_control_block, set_ptr, bind, load_handle, init_handle. cbn.
  rewrite Hl. cbn.
  destruct (decide (lhs = rhs)) as [->|Hne].
  - assert (l = r) as -> by congruence.
    read_back.
    unfold set_vars. cbn. by rewrite !handle_eta, !insert_insert_eq.
  - read_back. rewrite Hr. cbn. read_back.
    unfold set_vars. cbn. f_equal. f_equal.
    rewrite !handle_eta.
    apply map_eq. intros i.
    rewrite !lookup_insert. repeat case_decide; congruence.
Qed.

Lemma get_unfold (this : var) (s : state) :
  get this s =
  match vars s !! this with
  | None => Undefined
  | Some h => Ret (m_ptr h) s
  end.
Proof.
  unfold get, bind, load_handle. by destruct (vars s !! this).
Qed.

Lemma use_count_unfold (this : var) (s : state) :
  use_count this s =
  match vars s !! this with
  | None => Undefined
  | Some h =>
      match m_control_block h with
      | None => Ret 0%Z s
      | Some l =>
          match heap s !! l with
          | None => Undefined
          | Some cb => Ret (m_count cb) s
          end
      end
  end.
Proof.
  unfold use_count, bind, load_handle.
  destruct (vars s !! this) as [h|]; [|done].
  destruct (m_control_block h) as [l|]; [|done].
  unfold call_get_count, bind, load_block, ret, get_count.
  by destruct (heap s !! l).
Qed.

Lemma set_members (this : var) (p : option loc) (q : ptr_t) (s : state) :
  is_Some (vars s !! this) →
  (set_control_block this p ;; set_ptr this q) s =
  init_handle this {| m_control_block := p; m_ptr := q |} s.
Proof.
  intros [h Hh].
  unfold set_control_block, set_ptr, bind, load_handle, init_handle.
  rewrite Hh. cbn. rewrite lookup_insert_eq. cbn.
  unfold set_vars. cbn. by rewrite insert_insert_eq.
Qed.

Lemma reset_keeps_object (this : var) (s s' : state) :
  reset this s = Ret tt s' → is_Some (vars s' !! this).
Proof.
  rewrite reset_unfold.
  destruct (vars s !! this) as [h|] eqn:Hx; [|done].
  destruct (m_control_block h) as [l|]; [|by intros [= <-]; eauto].
  destruct (heap s !! l) as [cb|]; [|done].
  destruct (1 =? m_count cb)%Z; intros [= <-]; cbn.
  - rewrite lookup_insert_eq. eauto.
  - eauto.
Qed.

Lemma operator_assign_ptr_unfold (this : var) (ptr : ptr_t) (s : state) :
  operator_assign_ptr this ptr s =
  match vars s !! this with
  | None => Undefined
  | Some h =>
      if (m_ptr h =? ptr)%Z then Ret tt s
      else
        match avail s with
        | O => Throw s
        | S n =>
            let l := fresh (dom (heap s)) in
            (reset this ;;
             init_handle this {| m_control_block := Some l; m_ptr := ptr |})
              {| vars := vars s;
                 heap := <[l := ControlBlock_ctor (make_deleter default_delete ptr)]> (heap s);
                 deleted := deleted s;
                 avail := n |}
        end
  end.
Proof.
  unfold operator_assign_ptr. unfold bind at 1. rewrite get_unfold.
  destruct (vars s !! this) as [h|] eqn:Hx; [|done].
  destruct (m_ptr h =? ptr)%Z; cbn; [done|].
  unfold bind at 1. unfold new_ControlBlock.
  destruct (avail s) as [|n]; [done|]. cbn.
  unfold bind at 1 3.
  destruct (reset this _) as [[] s1| |] eqn:Hr; [|done..].
  apply set_members. by eapply reset_keeps_object.
Qed.

Lemma operator_eq_unfold (lhs rhs : var) (s : state) :
  operator_eq lhs rhs s =
  match vars s !! lhs, vars s !! rhs with
  | Some l, Some r => Ret (m_ptr l =? m_ptr r)%Z s
  | _, _ => Undefined
  end.
Proof.
  unfold operator_eq. unfold bind at 1. rewrite get_unfold.
  destruct (vars s !! lhs) as [l|]; [|done].
  unfold bind. rewrite get_unfold.
  by destruct (vars s !! rhs).
Qed.

Lemma operator_assign_unfold (this other : var) (s : state) :
  operator_assign this other s =
  match vars s !! this, vars s !! other with
  | Some h, Some o =>
      if (m_ptr h =? m_ptr o)%Z then Ret tt s
      else (reset this ;; SharedPtr_copy this other) s
  | _, _ => Undefined
  end.
Proof.
  unfold operator_assign. unfold bind at 1. rewrite operator_eq_unfold.
  destruct (vars s !! this) as [h|]; [|done].
  destruct (vars s !! other) as [o|]; [|done].
  by destruct (m_ptr h =? m_ptr o)%Z.
Qed.

Lemma leave_scope_unfold (this : var) (s : state) :
  leave_scope this s = (reset this ;; release_storage this) s.
Proof. reflexivity. Qed.

(** ** Reference counting over a group of handles *)

Lemma copies_shared (x : var) (ys : list var) (l : loc) (p : ptr_t)
    (c : Z) (d : erased_deleter_t) (s : state) :
  vars s !! x = Some {| m_control_block := Some l; m_ptr := p |} →
  x ∉ ys →
  heap s !! l = Some {| m_count := c; m_deleter := d |} →
  (0 ≤ c)%Z → (c + Z.of_nat (length ys) < size_modulus)%Z →
  copies x ys s =
  Ret tt {| vars := foldl (λ v y, <[y := {| m_control_block := Some l; m_ptr := p |}]> v)
                          (vars s) ys;
            heap := <[l := {| m_count := c + Z.of_nat (length ys); m_deleter := d |}]> (heap s);
            deleted := deleted s;
            avail := avail s |}.
Proof.
  revert c s. induction ys as [|y ys IH]; intros c s Hx Hnin Hl Hc0 Hc.
  - cbn. unfold ret. destruct s; cbn in *. f_equal. f_equal.
    rewrite Z.add_0_r. by rewrite insert_id.
  - cbn [copies]. unfold bind. rewrite SharedPtr_copy_unfold, Hx. cbn. rewrite Hl.
    cbn [length] in Hc.
    rewrite (IH (c + 1)%Z); cbn.
    + f_equal. f_equal.
      rewrite insert_insert_eq. do 2 f_equal. lia.
    + rewrite lookup_insert_ne; [done|]. intros ->. apply Hnin. by left.
    + intros Hin. apply Hnin. by right.
    + rewrite lookup_insert_eq. unfold increment_count. cbn.
      rewrite wrap_small; [done|]. lia.
    + lia.
    + lia.
Qed.

Lemma foldl_insert_lookup_notin (ys : list var) (h : SharedPtr)
    (v : gmap var SharedPtr) (z : var) :
  z ∉ ys → foldl (λ v y, <[y := h]> v) v ys !! z = v !! z.
Proof.
  revert v. induction ys as [|y ys IH]; intros v Hnin; [done|].
  cbn. rewrite IH.
  - rewrite lookup_insert_ne; [done|]. intros ->. apply Hnin. by left.
  - intros Hin. apply Hnin. by right.
Qed.

Lemma foldl_insert_lookup_in (ys : list var) (h : SharedPtr)
    (v : gmap var SharedPtr) (z : var) :
  z ∈ ys → foldl (λ v y, <[y := h]> v) v ys !! z = Some h.
Proof.
  revert v. induction ys as [|y ys IH]; intros v Hin; [by inversion Hin|].
  cbn. destruct (decide (z ∈ ys)) as [Hz|Hz]; [by apply IH|].
  assert (z = y) as -> by (inversion Hin; by subst).
  by rewrite foldl_insert_lookup_notin, lookup_insert_eq.
Qed.

Lemma foldl_delete_lookup_notin (zs : list var) (v : gmap var SharedPtr) (z : var) :
  z ∉ zs → foldl (λ v y, delete y v) v zs !! z = v !! z.
Proof.
  revert v. induction zs as [|y zs IH]; intros v Hnin; [done|].
  cbn. rewrite IH.
  - rewrite lookup_delete_ne; [done|]. intros ->. apply Hnin. by left.
  - intros Hin. apply Hnin. by right.
Qed.

Lemma resets_shared (zs : list var) (l : loc) (p : ptr_t)
    (c : Z) (d : erased_deleter_t) (s : state) :
  all_share zs l p s →
  heap s !! l = Some {| m_count := c; m_deleter := d |} →
  (Z.of_nat (length zs) < c < size_modulus)%Z →
  resets zs s =
  Ret tt (set_heap <[l := {| m_count := c - Z.of_nat (length zs); m_deleter := d |}]> s).
Proof.
  revert c s. induction zs as [|z zs IH]; intros c s Hsh Hl Hc.
  - cbn. unfold ret, set_heap. destruct s; cbn in *. do 2 f_equal.
    rewrite Z.sub_0_r. by rewrite insert_id.
  - cbn [resets]. unfold bind. rewrite reset_unfold.
    rewrite (Hsh z) by by left. cbn. rewrite Hl. cbn.
    cbn [length] in Hc.
    destruct (1 =? c)%Z eqn:Hc1; [lia|].
    rewrite wrap_small by (unfold size_modulus in *; lia).
    rewrite (IH (c - 1)%Z); cbn.
    + unfold set_heap. cbn. do 2 f_equal.
      rewrite insert_insert_eq. do 2 f_equal. lia.
    + intros z' Hz'. cbn. apply Hsh. by right.
    + by rewrite lookup_insert_eq.
    + lia.
Qed.

Lemma leave_scopes_shared (zs : list var) (l : loc) (p : ptr_t)
    (c : Z) (d : erased_deleter_t) (s : state) :
  NoDup zs →
  all_share zs l p s →
  heap s !! l = Some {| m_count := c; m_deleter := d |} →
  (Z.of_nat (length zs) < c < size_modulus)%Z →
  leave_scopes zs s =
  Ret tt {| vars := foldl (λ v y, delete y v) (vars s) zs;
            heap := <[l := {| m_count := c - Z.of_nat (length zs); m_deleter := d |}]> (heap s);
            deleted := deleted s;
            avail := avail s |}.
Proof.
  revert c s. induction zs as [|z zs IH]; intros c s Hnd Hsh Hl Hc.
  - cbn. unfold ret. destruct s; cbn in *. do 2 f_equal.
    rewrite Z.sub_0_r. by rewrite insert_id.
  - cbn [leave_scopes]. unfold leave_scope, destructor, release_storage, bind.
    rewrite reset_unfold.
    rewrite (Hsh z) by by left. cbn. rewrite Hl. cbn.
    cbn [length] in Hc.
    destruct (1 =? c)%Z eqn:Hc1; [lia|].
    rewrite wrap_small by (unfold size_modulus in *; lia).
    apply NoDup_cons in Hnd as [Hz Hnd].
    rewrite (IH (c - 1)%Z); cbn.
    + do 2 f_equal. rewrite insert_insert_eq. do 2 f_equal. lia.
    + done.
    + intros z' Hz'. cbn. rewrite lookup_delete_ne by (by intros ->).
      apply Hsh. by right.
    + by rewrite lookup_insert_eq.
    + lia.
Qed.

(** ** Preservation of the state invariant *)

Lemma final_state_bind {A B} (m : M A) (f : A → M B) (s s' : state) :
  final_state (bind m f s) = Some s' →
  m s = Throw s' ∨ ∃ a s1, m s = Ret a s1 ∧ final_state (f a s1) = Some s'.
Proof.
  unfold bind. destruct (m s) as [a s1| s1 |]; cbn.
  - intros H. right. eauto.
  - intros [= ->]. by left.
  - done.
Qed.

Lemma handle_invariant_empty : handle_invariant empty_handle.
Proof. by split. Qed.

Lemma handle_invariant_owning (l : loc) (p : ptr_t) :
  p ≠ nullptr → handle_invariant {| m_control_block := Some l; m_ptr := p |}.
Proof. intros Hp. split; cbn; [done|]. by intros [=]. Qed.

Lemma state_invariant_mono (k k' : Z) (s : state) :
  (k ≤ k')%Z → state_invariant k s → state_invariant k' s.
Proof.
  intros Hk [Hv Hb]. split; [done|].
  intros Hk' l cb Hl. specialize (Hb ltac:(lia) l cb Hl). lia.
Qed.

Lemma state_invariant_init_handle (k : Z) (s : state) (x : var) (h : SharedPtr) :
  handle_invariant h → state_invariant k s →
  state_invariant k (set_vars <[x := h]> s).
Proof.
  intros Hh [Hv Hb]. split; [|done].
  intros y h'. cbn. rewrite lookup_insert.
  case_decide; [by intros [= <-]|]. apply Hv.
Qed.

Lemma state_invariant_new_block (k : Z) (s : state) (l : loc)
    (d : erased_deleter_t) (n : nat) :
  (0 ≤ k)%Z → state_invariant k s →
  state_invariant (k + 1)
    {| vars := vars s; heap := <[l := ControlBlock_ctor d]> (heap s);
       deleted := deleted s; avail := n |}.
Proof.
  intros Hk0 [Hv Hb]. split; [done|]. cbn.
  intros Hk l' cb'. rewrite lookup_insert.
  case_decide; [intros [= <-]; cbn; lia |].
  intros H'. specialize (Hb ltac:(lia) l' cb' H'). lia.
Qed.

Lemma reset_invariant (this : var) (k : Z) (s s' : state) :
  state_invariant k s →
  final_state (reset this s) = Some s' → state_invariant k s'.
Proof.
  intros [Hv Hb]. rewrite reset_unfold.
  destruct (vars s !! this) as [h|] eqn:Hx; [|done].
  destruct (m_control_block h) as [l|]; [|by intros [= <-]].
  destruct (heap s !! l) as [cb|] eqn:Hl; [|done].
  destruct (1 =? m_count cb)%Z eqn:Hc; intros [= <-]; split; cbn.
  - intros y h'. rewrite lookup_insert.
    case_decide; [intros [= <-]; apply handle_invariant_empty | apply Hv].
  - intros Hk l' cb'. rewrite lookup_delete_Some. intros [_ H].
    exact (Hb Hk _ _ H).
  - done.
  - intros Hk l' cb'. rewrite lookup_insert.
    case_decide; [|exact (Hb Hk l' cb')]. intros [= <-]. cbn.
    specialize (Hb Hk l cb Hl). rewrite wrap_small; lia.
Qed.

Lemma SharedPtr_copy_invariant (this other : var) (k : Z) (s s' : state) :
  state_invariant k s →
  final_state (SharedPtr_copy this other s) = Some s' →
  state_invariant (k + 1) s'.
Proof.
  intros [Hv Hb]. rewrite SharedPtr_copy_unfold.
  destruct (vars s !! other) as [o|] eqn:Ho; [|done].
  destruct (m_control_block o) as [l|]; [|done].
  destruct (heap s !! l) as [cb|] eqn:Hl; [|done].
  intros [= <-]; split; cbn.
  - intros y h'. rewrite lookup_insert.
    case_decide; [intros [= <-]; by eapply Hv | apply Hv].
  - intros Hk l' cb'. rewrite lookup_insert.
    case_decide.
    + intros [= <-]. cbn. specialize (Hb ltac:(lia) l cb Hl).
      rewrite wrap_small; lia.
    + intros H'. specialize (Hb ltac:(lia) l' cb' H'). lia.
Qed.

Lemma SharedPtr_move_invariant (this other : var) (k : Z) (s s' : state) :
  state_invariant k s →
  final_state (SharedPtr_move this other s) = Some s' → state_invariant k s'.
Proof.
  intros Hinv. rewrite SharedPtr_move_unfold.
  destruct (vars s !! other) as [o|] eqn:Ho; [|done].
  intros [= <-].
  destruct Hinv as [Hv Hb]. split; [|done].
  intros y h'. cbn. rewrite !lookup_insert.
  repeat case_decide; try (intros [= <-]).
  - apply handle_invariant_empty.
  - by eapply Hv.
  - apply Hv.
Qed.

Lemma swap_invariant (lhs rhs : var) (k : Z) (s s' : state) :
  state_invariant k s →
  final_state (swap lhs rhs s) = Some s' → state_invariant k s'.
Proof.
  intros [Hv Hb]. rewrite swap_unfold.
  destruct (vars s !! lhs) as [l|] eqn:Hl; [|done].
  destruct (vars s !! rhs) as [r|] eqn:Hr; [|done].
  intros [= <-]. split; [|done].
  intros y h'. cbn. rewrite !lookup_insert.
  repeat case_decide; try (intros [= <-]).
  - by eapply Hv.
  - by eapply Hv.
  - apply Hv.
Qed.

Lemma SharedPtr_owning_invariant (this : var) (instance : ptr_t)
    (deleter : deleter_t) (k : Z) (s s' : state) :
  instance ≠ nullptr → (0 ≤ k)%Z → state_invariant k s →
  final_state (SharedPtr_owning this instance deleter s) = Some s' →
  state_invariant (k + 1) s'.
Proof.
  intros Hp Hk Hinv. unfold SharedPtr_owning, bind, new_ControlBlock, init_handle.
  destruct (avail s) as [|n].
  - intros [= <-]. eapply state_invariant_mono; [|done]. lia.
  - intros [= <-].
    apply state_invariant_init_handle; [by apply handle_invariant_owning|].
    by apply state_invariant_new_block.
Qed.

Lemma operator_assign_ptr_invariant (this : var) (ptr : ptr_t)
    (k : Z) (s s' : state) :
  ptr ≠ nullptr → (0 ≤ k)%Z → state_invariant k s →
  final_state (operator_assign_ptr this ptr s) = Some s' →
  state_invariant (k + 1) s'.
Proof.
  intros Hp Hk0 Hinv. rewrite operator_assign_ptr_unfold.
  assert (state_invariant (k + 1) s) as Hinv'
    by (eapply state_invariant_mono; [|done]; lia).
  destruct (vars s !! this) as [h|] eqn:Hx; [|done].
  destruct (m_ptr h =? ptr)%Z; [by intros [= <-]|].
  destruct (avail s) as [|n]; [by intros [= <-]|].
  cbn zeta. intros Hfin.
  apply final_state_bind in Hfin as [Hthrow|([] & s1 & Hreset & Hfin)].
  - eapply reset_invariant; [|by rewrite Hthrow].
    by apply state_invariant_new_block.
  - unfold init_handle in Hfin. cbn in Hfin. injection Hfin as <-.
    apply state_invariant_init_handle; [by apply handle_invariant_owning|].
    eapply reset_invariant; [|by rewrite Hreset].
    by apply state_invariant_new_block.
Qed.

Lemma operator_assign_invariant (this other : var) (k : Z) (s s' : state) :
  state_invariant k s →
  final_state (operator_assign this other s) = Some s' →
  state_invariant (k + 1) s'.
Proof.
  intros Hinv. rewrite operator_assign_unfold.
  assert (state_invariant (k + 1) s) as Hinv'
    by (eapply state_invariant_mono; [|done]; lia).
  destruct (vars s !! this) as [h|] eqn:Hx; [|done].
  destruct (vars s !! other) as [o|] eqn:Ho; [|done].
  destruct (m_ptr h =? m_ptr o)%Z; [by intros [= <-]|].
  intros Hfin.
  apply final_state_bind in Hfin as [Hthrow|([] & s1 & Hreset & Hfin)].
  - eapply reset_invariant; [exact Hinv'|by rewrite Hthrow].
  - eapply SharedPtr_copy_invariant; [|exact Hfin].
    eapply reset_invariant; [exact Hinv|by rewrite Hreset].
Qed.

Lemma leave_scope_invariant (this : var) (k : Z) (s s' : state) :
  state_invariant k s →
  final_state (leave_scope this s) = Some s' → state_invariant k s'.
Proof.
  intros Hinv. rewrite leave_scope_unfold. intros Hfin.
  apply final_state_bind in Hfin as [Hthrow|([] & s1 & Hreset & Hfin)].
  - eapply reset_invariant; [exact Hinv|by rewrite Hthrow].
  - assert (state_invariant k s1) as [Hv Hb]
      by (eapply reset_invariant; [exact Hinv|by rewrite Hreset]).
    unfold release_storage in Hfin. cbn in Hfin. injection Hfin as <-.
    split; [|done]. intros y h'. cbn. rewrite lookup_delete_Some.
    intros [_ H]. by eapply Hv.
Qed.

Lemma exec_invariant (c : call) (k : Z) (s s' : state) :
  passes_no_null c → (0 ≤ k)%Z →
  state_invariant k s →
  final_state (exec c s) = Some s' → state_invariant (k + 1) s'.
Proof.
  intros Hnn Hk0 Hinv.
  assert (∀ t, state_invariant k t → state_invariant (k + 1) t) as Hup
    by (intros t; apply state_invariant_mono; lia).
  destruct c; cbn [exec].
  - intros [= <-].
    apply Hup, state_invariant_init_handle; [apply handle_invariant_empty|done].
  - intros [= <-].
    apply Hup, state_invariant_init_handle; [apply handle_invariant_empty|done].
  - apply SharedPtr_owning_invariant; [|done..].
    intros ->. by apply Hnn.
  - by apply SharedPtr_copy_invariant.
  - rewrite SharedPtr_copy_const_unfold. by apply SharedPtr_copy_invariant.
  - rewrite SharedPtr_move_const_unfold. intros H.
    eapply Hup, SharedPtr_move_invariant; done.
  - intros H. eapply Hup, SharedPtr_move_invariant; done.
  - intros H. eapply Hup, reset_invariant; done.
  - intros H. eapply Hup, reset_invariant; done.
  - apply operator_assign_ptr_invariant; [|done..].
    intros ->. by apply Hnn.
  - by apply operator_assign_invariant.
  - intros H. eapply Hup, swap_invariant; done.
  - intros H. eapply Hup, leave_scope_invariant; done.
Qed.

Lemma run_invariant (cs : list call) (k : Z) (s s' : state) :
  Forall passes_no_null cs → (0 ≤ k)%Z →
  state_invariant k s →
  final_state (run cs s) = Some s' →
  state_invariant (k + Z.of_nat (length cs)) s'.
Proof.
  revert k s. induction cs as [|c cs IH]; intros k s Hnn Hk0 Hinv.
  - cbn. intros [= <-]. by rewrite Z.add_0_r.
  - cbn [run length] in *. apply Forall_cons in Hnn as [Hc Hcs]. intros Hfin.
    apply final_state_bind in Hfin as [Hthrow|([] & s1 & Hexec & Hfin)].
    + eapply state_invariant_mono;
        [|eapply (exec_invariant c k s); [done|done|done|by rewrite Hthrow]].
      lia.
    + replace (k + Z.of_nat (S (length cs)))%Z
        with ((k + 1) + Z.of_nat (length cs))%Z by lia.
      eapply IH; [done|lia| |exact Hfin].
      eapply exec_invariant; [done|done|exact Hinv|by rewrite Hexec].
Qed.

(** ** Properties of [reset] *)

Lemma reset_empty_noop (this : var) (s : state) (h : SharedPtr) :
  vars s !! this = Some h → m_control_block h = None →
  reset this s = Ret tt s.
Proof. intros Hx Hcb. by rewrite reset_unfold, Hx, Hcb. Qed.

Lemma reset_last_owner (this : var) (s : state) (h : SharedPtr)
    (l : loc) (cb : ControlBlock) :
  vars s !! this = Some h → m_control_block h = Some l →
  heap s !! l = Some cb → m_count cb = 1%Z →
  reset this s =
  Ret tt {| vars := <[this := empty_handle]> (vars s);
            heap := delete l (heap s);
            deleted := m_deleter cb :: deleted s;
            avail := S (avail s) |}.
Proof. intros Hx Hcb Hl Hc. by rewrite reset_unfold, Hx, Hcb, Hl, Hc. Qed.

Lemma reset_other_owners (this : var) (s : state) (h : SharedPtr)
    (l : loc) (cb : ControlBlock) :
  vars s !! this = Some h → m_control_block h = Some l →
  heap s !! l = Some cb → m_count cb ≠ 1%Z →
  reset this s =
  Ret tt (set_heap <[l := {| m_count := wrap (m_count cb - 1);
                             m_deleter := m_deleter cb |}]> s).
Proof.
  intros Hx Hcb Hl Hc. rewrite reset_unfold, Hx, Hcb, Hl.
  destruct (1 =? m_count cb)%Z eqn:E; [lia|done].
Qed.

(** C1 (reset leaves the handle's members null in all cases): at the
    input below the code does otherwise.  A handle is constructed for
    the object at address 100 and copied, so that the counter is 2; the
    copy is then reset.  The counter goes down to 1, but the members of
    the copy are not cleared: it still holds the address 100 and the
    control block.  When that handle later goes out of scope its
    destructor releases a second time, the deletion action runs, and
    the first handle is left with a freed control block. *)
Theorem reset_of_shared_handle_keeps_members :
  ∃ s s',
    run [COwning 0 100%Z default_delete; CCopy 1 0; CReset 1] (initial_state 1)
      = Ret tt s ∧
    vars s !! 1 = Some {| m_control_block := Some 1%positive; m_ptr := 100%Z |} ∧
    get 1 s = Ret 100%Z s ∧
    use_count 0 s = Ret 1%Z s ∧
    deleted s = [] ∧
    leave_scope 1 s = Ret tt s' ∧
    deleted s' = [make_deleter default_delete 100%Z] ∧
    vars s' !! 0 = Some {| m_control_block := Some 1%positive; m_ptr := 100%Z |} ∧
    use_count 0 s' = Undefined.
Proof.
  eexists. eexists.
  split; [vm_compute; reflexivity|].
  split; [vm_compute; reflexivity|].
  split; [vm_compute; reflexivity|].
  split; [vm_compute; reflexivity|].
  split; [vm_compute; reflexivity|].
  split; [vm_compute; reflexivity|].
  split; [vm_compute; reflexivity|].
  split; vm_compute; reflexivity.
Qed.

(** ** Copy construction *)

(** C2 (copying an empty handle yields an empty handle, with no
    increment and no access to a null control block): the copy
    constructor calls [increment_count] through the control-block
    pointer it has just copied without testing it, so that copying an
    empty handle dereferences a null pointer. *)
Theorem copy_of_empty_handle_dereferences_null
    (this other : var) (s : state) (o : SharedPtr) :
  vars s !! other = Some o → m_control_block o = None →
  SharedPtr_copy this other s = Undefined.
Proof. intros Ho Hcb. by rewrite SharedPtr_copy_unfold, Ho, Hcb. Qed.

Lemma copy_of_empty_handle_dereferences_null_witness :
  vars (set_vars <[0 := empty_handle]> (initial_state 0)) !! 0 = Some empty_handle ∧
  m_control_block empty_handle = None ∧
  SharedPtr_copy 1 0 (set_vars <[0 := empty_handle]> (initial_state 0)) = Undefined.
Proof.
  split; [reflexivity|]. split; [reflexivity|].
  apply (copy_of_empty_handle_dereferences_null 1 0 _ empty_handle); reflexivity.
Defined.

(** ** Assignment *)

(** C4: assignment from a raw pointer different from the current one
    allocates the new control block first and only then releases the old
    ownership; when the allocation fails the exception leaves with the
    state it found: the handle, its control block and the counter are
    unchanged and no deletion action has run. *)
Theorem operator_assign_ptr_strong_exception_safety
    (this : var) (ptr : ptr_t) (s : state) (h : SharedPtr) :
  vars s !! this = Some h → m_ptr h ≠ ptr →
  operator_assign_ptr this ptr s =
    (new_control_block <- new_ControlBlock (make_deleter default_delete ptr) ;;
     reset this ;;
     set_control_block this (Some new_control_block) ;;
     set_ptr this ptr) s ∧
  (avail s = O → operator_assign_ptr this ptr s = Throw s).
Proof.
  intros Hx Hne.
  assert ((m_ptr h =? ptr)%Z = false) as Hb by lia.
  split.
  - unfold operator_assign_ptr. unfold bind at 1. by rewrite get_unfold, Hx, Hb.
  - intros Ha. by rewrite operator_assign_ptr_unfold, Hx, Hb, Ha.
Qed.

Lemma operator_assign_ptr_strong_exception_safety_witness :
  operator_assign_ptr 0 200%Z (sole_owner_state default_delete 0)
    = Throw (sole_owner_state default_delete 0) ∧
  use_count 0 (sole_owner_state default_delete 0)
    = Ret 1%Z (sole_owner_state default_delete 0).
Proof.
  split; [|reflexivity].
  refine (proj2 (operator_assign_ptr_strong_exception_safety 0 200%Z
                   (sole_owner_state default_delete 0)
                   {| m_control_block := Some 1%positive; m_ptr := 100%Z |} _ _) _).
  - reflexivity.
  - cbn. lia.
  - reflexivity.
Defined.

(** C5: self-assignment is a no-op.  Assigning a handle to itself, or to
    a handle with the same managed address, returns in the state it
    started in: [get()] and [use_count()] are unchanged and no deletion
    action is run. *)
Theorem self_assignment_noop (this : var) (s : state) (h : SharedPtr) :
  vars s !! this = Some h →
  operator_assign this this s = Ret tt s ∧
  ∀ other o, vars s !! other = Some o → m_ptr o = m_ptr h →
             operator_assign this other s = Ret tt s.
Proof.
  intros Hx. split.
  - by rewrite operator_assign_unfold, Hx, Z.eqb_refl.
  - intros other o Ho Hp.
    by rewrite operator_assign_unfold, Hx, Ho, Hp, Z.eqb_refl.
Qed.

Lemma self_assignment_noop_witness :
  operator_assign 0 0 (sole_owner_state default_delete 3)
    = Ret tt (sole_owner_state default_delete 3) ∧
  operator_assign 0 1 after_shared_reset_state = Ret tt after_shared_reset_state.
Proof.
  split.
  - refine (proj1 (self_assignment_noop 0 (sole_owner_state default_delete 3)
                     {| m_control_block := Some 1%positive; m_ptr := 100%Z |} _)).
    reflexivity.
  - refine (proj2 (self_assignment_noop 0 after_shared_reset_state
                     {| m_control_block := Some 1%positive; m_ptr := 100%Z |} _)
              1 {| m_control_block := Some 1%positive; m_ptr := 100%Z |} _ _);
      reflexivity.
Defined.

(** C9: assigning to a handle the raw pointer it already holds is a
    no-op: nothing is allocated, the counter is not touched, no deletion
    action runs and the handle keeps its object. *)
Theorem assign_own_pointer_noop (this : var) (s : state) (h : SharedPtr) :
  vars s !! this = Some h →
  operator_assign_ptr this (m_ptr h) s = Ret tt s ∧
  (p <- get this ;; operator_assign_ptr this p) s = Ret tt s.
Proof.
  intros Hx.
  assert (operator_assign_ptr this (m_ptr h) s = Ret tt s) as H
    by (by rewrite operator_assign_ptr_unfold, Hx, Z.eqb_refl).
  split; [done|].
  unfold bind. by rewrite get_unfold, Hx.
Qed.

Lemma assign_own_pointer_noop_witness :
  (p <- get 0 ;; operator_assign_ptr 0 p) (sole_owner_state default_delete 0)
    = Ret tt (sole_owner_state default_delete 0).
Proof.
  refine (proj2 (assign_own_pointer_noop 0 (sole_owner_state default_delete 0)
                   {| m_control_block := Some 1%positive; m_ptr := 100%Z |} _)).
  reflexivity.
Defined.

(** C10: assignment from a raw pointer different from the current one
    binds [std::default_delete] to the new pointer in the new control
    block, whatever deletion action the handle held before: the action
    stored in the new block has [std::default_delete] as its deleter and
    the new pointer as the pointer it will be applied to. *)
Theorem operator_assign_ptr_binds_default_delete
    (this : var) (ptr : ptr_t) (s : state) (h : SharedPtr) :
  vars s !! this = Some h → m_ptr h ≠ ptr → avail s ≠ O →
  (∀ l0, m_control_block h = Some l0 → is_Some (heap s !! l0)) →
  ∃ s' l,
    operator_assign_ptr this ptr s = Ret tt s' ∧
    vars s' !! this = Some {| m_control_block := Some l; m_ptr := ptr |} ∧
    heap s' !! l = Some {| m_count := 1;
                            m_deleter := {| captured_deleter := default_delete;
                                            captured_ptr := ptr |} |} ∧
    heap s !! l = None.
Proof.
  intros Hx Hne Ha Hlive.
  assert ((m_ptr h =? ptr)%Z = false) as Hb by lia.
  destruct (avail s) as [|n] eqn:Hav; [done|].
  pose proof (is_fresh (dom (heap s))) as Hfresh.
  rewrite not_elem_of_dom in Hfresh.
  rewrite operator_assign_ptr_unfold, Hx, Hb, Hav. cbn zeta.
  set (l := fresh (dom (heap s))) in *.
  unfold bind. rewrite reset_unfold. cbn. rewrite Hx.
  destruct (m_control_block h) as [l0|] eqn:Hcb.
  - destruct (Hlive l0 eq_refl) as [cb0 Hl0].
    assert (l ≠ l0) as Hll by (intros ->; congruence).
    rewrite lookup_insert_ne, Hl0 by done.
    destruct (1 =? m_count cb0)%Z; cbn; eexists _, l; (split; [reflexivity|]); cbn.
    + rewrite lookup_insert_eq, lookup_delete_ne, lookup_insert_eq by done. done.
    + rewrite lookup_insert_eq, lookup_insert_ne, lookup_insert_eq by done. done.
  - cbn. eexists _, l. split; [reflexivity|]. cbn.
    by rewrite !lookup_insert_eq.
Qed.

Lemma operator_assign_ptr_binds_default_delete_witness :
  ∃ s' l,
    operator_assign_ptr 0 200%Z (sole_owner_state (custom_deleter 7) 1) = Ret tt s' ∧
    vars s' !! 0 = Some {| m_control_block := Some l; m_ptr := 200%Z |} ∧
    heap s' !! l = Some {| m_count := 1;
                            m_deleter := {| captured_deleter := default_delete;
                                            captured_ptr := 200%Z |} |} ∧
    heap (sole_owner_state (custom_deleter 7) 1) !! l = None.
Proof.
  apply (operator_assign_ptr_binds_default_delete 0 200%Z
           (sole_owner_state (custom_deleter 7) 1)
           {| m_control_block := Some 1%positive; m_ptr := 100%Z |}).
  - reflexivity.
  - cbn. lia.
  - cbn. lia.
  - intros l0 [= <-]. eexists. reflexivity.
Defined.

(** ** Move construction and swap *)

(** C7: move construction leaves the source empty and gives the
    destination the pointer and the control block of the source; the
    heap of control blocks is untouched, so [use_count()] through the
    destination is what it was through the source. *)
Theorem move_construction_transfers (this other : var) (s : state) (o : SharedPtr) :
  vars s !! other = Some o → this ≠ other →
  ∃ s',
    SharedPtr_move this other s = Ret tt s' ∧
    vars s' !! other = Some {| m_control_block := None; m_ptr := nullptr |} ∧
    get other s' = Ret nullptr s' ∧
    vars s' !! this = Some o ∧
    get this s' = Ret (m_ptr o) s' ∧
    heap s' = heap s ∧ deleted s' = deleted s ∧ avail s' = avail s ∧
    (∀ c, use_count other s = Ret c s → use_count this s' = Ret c s').
Proof.
  intros Ho Hne. rewrite SharedPtr_move_unfold, Ho.
  eexists. split; [reflexivity|].
  assert (∀ v : gmap var SharedPtr,
            <[other := empty_handle]> (<[this := o]> v) !! this = Some o) as Hthis
    by (intros v; by rewrite lookup_insert_ne, lookup_insert_eq).
  repeat split; cbn.
  - by rewrite lookup_insert_eq.
  - by rewrite get_unfold; cbn; rewrite lookup_insert_eq.
  - apply Hthis.
  - by rewrite get_unfold; cbn; rewrite Hthis.
  - intros c. rewrite !use_count_unfold, Ho. cbn. rewrite Hthis.
    destruct (m_control_block o) as [l|]; [|by intros [= <-]].
    destruct (heap s !! l); [|done]. by intros [= <-].
Qed.

Lemma move_construction_transfers_witness :
  ∃ s',
    SharedPtr_move 1 0 (sole_owner_state default_delete 0) = Ret tt s' ∧
    vars s' !! 0 = Some {| m_control_block := None; m_ptr := nullptr |} ∧
    get 0 s' = Ret nullptr s' ∧
    vars s' !! 1 = Some {| m_control_block := Some 1%positive; m_ptr := 100%Z |} ∧
    get 1 s' = Ret 100%Z s' ∧
    heap s' = heap (sole_owner_state default_delete 0) ∧
    deleted s' = [] ∧ avail s' = 0 ∧
    (∀ c, use_count 0 (sole_owner_state default_delete 0)
            = Ret c (sole_owner_state default_delete 0) →
          use_count 1 s' = Ret c s').
Proof.
  apply (move_construction_transfers 1 0 (sole_owner_state default_delete 0)
           {| m_control_block := Some 1%positive; m_ptr := 100%Z |}).
  - reflexivity.
  - lia.
Defined.

(** C8: [swap] exchanges the members of the two handles and touches
    neither a counter nor a managed object: each handle afterwards holds
    the pointer of the other and reports the count the other reported
    before, 1 when both were sole owners. *)
Theorem swap_exchanges_handles (a b : var) (s : state) (ha hb : SharedPtr) :
  vars s !! a = Some ha → vars s !! b = Some hb → a ≠ b →
  ∃ s',
    swap a b s = Ret tt s' ∧
    vars s' !! a = Some hb ∧ vars s' !! b = Some ha ∧
    get a s' = Ret (m_ptr hb) s' ∧ get b s' = Ret (m_ptr ha) s' ∧
    heap s' = heap s ∧ deleted s' = deleted s ∧ avail s' = avail s ∧
    (∀ c, use_count b s = Ret c s → use_count a s' = Ret c s') ∧
    (∀ c, use_count a s = Ret c s → use_count b s' = Ret c s') ∧
    (use_count a s = Ret 1%Z s → use_count b s = Ret 1%Z s →
     use_count a s' = Ret 1%Z s' ∧ use_count b s' = Ret 1%Z s').
Proof.
  intros Ha Hb Hne. rewrite swap_unfold, Ha, Hb.
  eexists. split; [reflexivity|].
  assert (∀ v : gmap var SharedPtr,
            <[b := ha]> (<[a := hb]> v) !! a = Some hb) as Hla
    by (intros v; by rewrite lookup_insert_ne, lookup_insert_eq).
  assert (∀ v : gmap var SharedPtr,
            <[b := ha]> (<[a := hb]> v) !! b = Some ha) as Hlb
    by (intros v; by rewrite lookup_insert_eq).
  assert (∀ (x y : var) (hx : SharedPtr) (c : Z) (t : state),
            vars s !! x = Some hx → vars t !! y = Some hx → heap t = heap s →
            use_count x s = Ret c s → use_count y t = Ret c t) as Huse.
  { intros x y hx c t Hx Hy Hheap. rewrite !use_count_unfold, Hx, Hy, Hheap.
    destruct (m_control_block hx) as [l|]; [|by intros [= <-]].
    destruct (heap s !! l); [|done]. by intros [= <-]. }
  split; [apply Hla|]. split; [apply Hlb|].
  split; [by rewrite get_unfold; cbn; rewrite Hla|].
  split; [by rewrite get_unfold; cbn; rewrite Hlb|].
  split; [done|]. split; [done|]. split; [done|].
  split; [intros c; by apply (Huse b a hb); cbn|].
  split; [intros c; by apply (Huse a b ha); cbn|].
  intros H1 H2. split.
  - by apply (Huse b a hb); cbn.
  - by apply (Huse a b ha); cbn.
Qed.

Lemma swap_exchanges_handles_witness :
  ∃ s',
    swap 0 1 two_owners_state = Ret tt s' ∧
    get 0 s' = Ret 200%Z s' ∧ get 1 s' = Ret 100%Z s' ∧
    use_count 0 s' = Ret 1%Z s' ∧ use_count 1 s' = Ret 1%Z s' ∧
    heap s' = heap two_owners_state ∧ deleted s' = [].
Proof.
  destruct (swap_exchanges_handles 0 1 two_owners_state
              {| m_control_block := Some 1%positive; m_ptr := 100%Z |}
              {| m_control_block := Some 2%positive; m_ptr := 200%Z |})
    as (s' & Hswap & _ & _ & Ha & Hb & Hheap & Hdel & _ & _ & _ & Hone).
  - reflexivity.
  - reflexivity.
  - lia.
  - destruct Hone as [Hca Hcb]; [reflexivity..|].
    exists s'. repeat split; assumption.
Defined.

(** ** Counting owners *)

(** C6: owning construction creates a control block whose counter is 1;
    after [N] copies every one of the [N + 1] handles reports
    [use_count() == N + 1]; once all of them but one have gone out of
    scope, or have been reset, the remaining handle reports 1 again and
    no deletion action has run. *)
Theorem use_count_tracks_owners
    (x : var) (ys : list var) (instance : ptr_t) (deleter : deleter_t)
    (keep : var) (gone : list var) (s : state) :
  avail s ≠ O → NoDup (x :: ys) →
  (Z.of_nat (length ys) + 1 < size_modulus)%Z →
  keep :: gone ≡ₚ x :: ys →
  ∃ s1 s2 s3 s4 l,
    SharedPtr_owning x instance deleter s = Ret tt s1 ∧
    vars s1 !! x = Some {| m_control_block := Some l; m_ptr := instance |} ∧
    heap s1 !! l = Some {| m_count := 1; m_deleter := make_deleter deleter instance |} ∧
    use_count x s1 = Ret 1%Z s1 ∧
    copies x ys s1 = Ret tt s2 ∧
    (∀ z, z ∈ x :: ys → use_count z s2 = Ret (Z.of_nat (length ys) + 1)%Z s2) ∧
    leave_scopes gone s2 = Ret tt s3 ∧
    use_count keep s3 = Ret 1%Z s3 ∧ deleted s3 = deleted s ∧
    resets gone s2 = Ret tt s4 ∧
    use_count keep s4 = Ret 1%Z s4 ∧ deleted s4 = deleted s.
Proof.
  intros Hav Hnd Hlen Hperm.
  destruct (avail s) as [|n] eqn:Havail; [done|].
  set (l := fresh (dom (heap s))).
  set (d := make_deleter deleter instance).
  set (hd := {| m_control_block := Some l; m_ptr := instance |}).
  set (N := Z.of_nat (length ys)) in *.
  apply NoDup_cons in Hnd as Hnd'. destruct Hnd' as [Hx Hys].
  (* construction *)
  set (s1 := {| vars := <[x := hd]> (vars s);
                heap := <[l := ControlBlock_ctor d]> (heap s);
                deleted := deleted s; avail := n |}).
  assert (SharedPtr_owning x instance deleter s = Ret tt s1) as H1.
  { unfold SharedPtr_owning, bind, new_ControlBlock, init_handle.
    by rewrite Havail. }
  assert (vars s1 !! x = Some hd) as Hx1 by (cbn; by rewrite lookup_insert_eq).
  assert (heap s1 !! l = Some {| m_count := 1; m_deleter := d |}) as Hl1
    by (cbn; by rewrite lookup_insert_eq).
  (* copies *)
  pose proof (copies_shared x ys l instance 1 d s1 Hx1 Hx Hl1) as H2.
  rewrite (Z.add_comm 1) in H2.
  specialize (H2 ltac:(lia) Hlen).
  match type of H2 with _ = Ret tt ?t => set (s2 := t) in * end.
  assert (all_share (x :: ys) l instance s2) as Hshare.
  { intros z Hz. cbn. destruct (decide (z ∈ ys)) as [Hin|Hnin].
    - by apply foldl_insert_lookup_in.
    - rewrite foldl_insert_lookup_notin by done.
      apply elem_of_cons in Hz as [->|Hz]; [|done].
      by rewrite lookup_insert_eq. }
  assert (heap s2 !! l = Some {| m_count := N + 1; m_deleter := d |}) as Hl2
    by (cbn; by rewrite lookup_insert_eq).
  (* the handles that go away *)
  assert (NoDup (keep :: gone)) as Hndk by (by rewrite Hperm).
  apply NoDup_cons in Hndk as [Hkeep Hgone].
  assert (Z.of_nat (length gone) = N) as Hlg.
  { apply Permutation_length in Hperm. cbn in Hperm. unfold N. lia. }
  assert (all_share gone l instance s2) as Hsg.
  { intros z Hz. apply Hshare. rewrite <- Hperm. by right. }
  assert (vars s2 !! keep = Some hd) as Hk2.
  { apply Hshare. rewrite <- Hperm. by left. }
  pose proof (leave_scopes_shared gone l instance (N + 1) d s2 Hgone Hsg Hl2
                ltac:(lia)) as H3.
  pose proof (resets_shared gone l instance (N + 1) d s2 Hsg Hl2
                ltac:(lia)) as H4.
  rewrite Hlg in H3, H4.
  replace (N + 1 - N)%Z with 1%Z in H3, H4 by lia.
  eexists s1, s2, _, _, l.
  split; [exact H1|]. split; [exact Hx1|]. split; [exact Hl1|].
  split; [by rewrite use_count_unfold, Hx1; cbn [m_control_block hd]; rewrite Hl1|].
  split; [exact H2|].
  split.
  { intros z Hz. rewrite use_count_unfold, (Hshare z Hz).
    cbn [m_control_block]. by rewrite Hl2. }
  split; [exact H3|].
  split.
  { rewrite use_count_unfold. cbn [vars heap].
    rewrite foldl_delete_lookup_notin, Hk2 by done.
    cbn [m_control_block hd]. by rewrite lookup_insert_eq. }
  split; [done|].
  split; [exact H4|].
  split; [|done].
  rewrite use_count_unfold. cbn [vars heap set_heap].
  rewrite Hk2. cbn [m_control_block hd]. by rewrite lookup_insert_eq.
Qed.

Lemma use_count_tracks_owners_witness :
  ∃ s1 s2 s3 s4 l,
    SharedPtr_owning 0 100%Z default_delete (initial_state 1) = Ret tt s1 ∧
    vars s1 !! 0 = Some {| m_control_block := Some l; m_ptr := 100%Z |} ∧
    heap s1 !! l = Some {| m_count := 1;
                            m_deleter := make_deleter default_delete 100%Z |} ∧
    use_count 0 s1 = Ret 1%Z s1 ∧
    copies 0 [1; 2] s1 = Ret tt s2 ∧
    (∀ z, z ∈ [0; 1; 2] → use_count z s2 = Ret 3%Z s2) ∧
    leave_scopes [0; 1] s2 = Ret tt s3 ∧
    use_count 2 s3 = Ret 1%Z s3 ∧ deleted s3 = [] ∧
    resets [0; 1] s2 = Ret tt s4 ∧
    use_count 2 s4 = Ret 1%Z s4 ∧ deleted s4 = [].
Proof.
  apply (use_count_tracks_owners 0 [1; 2] 100%Z default_delete 2 [0; 1]
           (initial_state 1)).
  - cbn. lia.
  - apply (bool_decide_unpack (NoDup [0; 1; 2])). vm_compute. exact I.
  - unfold size_modulus. cbn. lia.
  - apply (Permutation_cons_append [0; 1] 2).
Defined.

(** ** The handle invariant *)

(** C3, as first stated (the invariant holds of every handle reachable
    through the public operations), fails: the owning constructor
    accepts a null [instance] and allocates a control block for it, so
    that the handle has a null pointer, a control block, and
    [use_count() == 1]. *)
Lemma null_instance_breaks_handle_invariant :
  ¬ (∀ (cs : list call) (n : nat) (s : state) (x : var) (h : SharedPtr) (c : Z),
       run cs (initial_state n) = Ret tt s →
       vars s !! x = Some h →
       use_count x s = Ret c s →
       handle_invariant h ∧ (c = 0%Z ↔ m_ptr h = nullptr)).
Proof.
  intros H.
  destruct (H [COwning 0 nullptr default_delete] 1
              {| vars := {[ 0 := {| m_control_block := Some 1%positive; m_ptr := nullptr |} ]};
                 heap := {[ 1%positive := ControlBlock_ctor (make_deleter default_delete nullptr) ]};
                 deleted := [];
                 avail := 0 |}
              0 {| m_control_block := Some 1%positive; m_ptr := nullptr |} 1%Z)
    as [_ [_ Hc]]; [reflexivity..|].
  by specialize (Hc eq_refl).
Qed.

(** C3, amended: in every state reached from the initial state by fewer
    than 2^64 calls of the public operations, none of which passes a
    null raw pointer to the owning constructor or to the assignment from
    a raw pointer, every handle has a null pointer exactly when it has
    no control block; [get()] returns that pointer; whenever
    [use_count()] returns, it returns 0 exactly when [get()] is null;
    and [use_count()] does return for a handle that is empty or whose
    control block is live. *)
Theorem handle_invariant_reachable
    (cs : list call) (n : nat) (s : state) (x : var) (h : SharedPtr) :
  Forall passes_no_null cs →
  final_state (run cs (initial_state n)) = Some s →
  vars s !! x = Some h →
  handle_invariant h ∧
  get x s = Ret (m_ptr h) s ∧
  ((Z.of_nat (length cs) < size_modulus)%Z →
   ∀ c s', use_count x s = Ret c s' → (c = 0%Z ↔ m_ptr h = nullptr)) ∧
  ((∀ l, m_control_block h = Some l → is_Some (heap s !! l)) →
   ∃ c, use_count x s = Ret c s).
Proof.
  intros Hnn Hfin Hx.
  assert (state_invariant (0 + Z.of_nat (length cs)) s) as [Hv Hb].
  { eapply run_invariant; [done|done| |exact Hfin].
    split; [|intros _]; intros ? ?; cbn; by rewrite lookup_empty. }
  specialize (Hv x h Hx) as Hh.
  split; [done|].
  split; [by rewrite get_unfold, Hx|].
  split.
  - intros Hlen c s'. rewrite use_count_unfold, Hx.
    destruct (m_control_block h) as [l|] eqn:Hcb.
    + destruct (heap s !! l) as [cb|] eqn:Hl; [|done].
      intros [= <- <-]. specialize (Hb ltac:(lia) l cb Hl).
      split; [lia|]. intros Hp. apply Hh in Hp. congruence.
    + intros [= <- <-]. split; [|done]. intros _. by apply Hh.
  - intros Hlive. rewrite use_count_unfold, Hx.
    destruct (m_control_block h) as [l|] eqn:Hcb; [|eauto].
    destruct (Hlive l eq_refl) as [cb ->]. eauto.
Qed.

Lemma handle_invariant_reachable_witness :
  Forall passes_no_null [COwning 0 100%Z default_delete; CCopy 1 0; CReset 1] ∧
  final_state
    (run [COwning 0 100%Z default_delete; CCopy 1 0; CReset 1] (initial_state 1))
    = Some after_shared_reset_state ∧
  handle_invariant {| m_control_block := Some 1%positive; m_ptr := 100%Z |} ∧
  get 1 after_shared_reset_state = Ret 100%Z after_shared_reset_state ∧
  ((3 < size_modulus)%Z →
   ∀ c s', use_count 1 after_shared_reset_state = Ret c s' →
           (c = 0%Z ↔ 100%Z = nullptr)) ∧
  ((∀ l, Some 1%positive = Some l → is_Some (heap after_shared_reset_state !! l)) →
   ∃ c, use_count 1 after_shared_reset_state = Ret c after_shared_reset_state).
Proof.
  assert (Forall passes_no_null
            [COwning 0 100%Z default_delete; CCopy 1 0; CReset 1]) as Hnn
    by (repeat constructor; discriminate).
  split; [exact Hnn|]. split; [reflexivity|].
  apply (handle_invariant_reachable
           [COwning 0 100%Z default_delete; CCopy 1 0; CReset 1] 1
           after_shared_reset_state 1
           {| m_control_block := Some 1%positive; m_ptr := 100%Z |}).
  - exact Hnn.
  - reflexivity.
  - reflexivity.
Defined.

(** Why the count is read only below 2^64 calls: an increment of a
    counter that holds the largest [std::size_t] wraps around to 0, and
    the new handle then reports [use_count() == 0] next to a non-null
    pointer. *)
Lemma copy_wraps_counter (this other : var) (s : state) (o : SharedPtr)
    (l : loc) (d : erased_deleter_t) :
  vars s !! other = Some o → m_control_block o = Some l →
  heap s !! l = Some {| m_count := size_modulus - 1; m_deleter := d |} →
  ∃ s', SharedPtr_copy this other s = Ret tt s' ∧
        use_count this s' = Ret 0%Z s' ∧
        get this s' = Ret (m_ptr o) s'.
Proof.
  intros Ho Hcb Hl. rewrite SharedPtr_copy_unfold, Ho, Hcb, Hl.
  eexists. split; [reflexivity|].
  rewrite use_count_unfold, get_unfold. cbn.
  rewrite lookup_insert_eq, Hcb, lookup_insert_eq. cbn.
  split; [|done]. do 2 f_equal.
Qed.

(** ** Release by the last owner *)

(** X1: when the counter is 1, [reset()], [operator=(nullptr)] and the
    destructor all do the same thing: the stored deletion action runs
    once, the control block is freed, and the handle is left empty, with
    [get() == nullptr] and [use_count() == 0]; no other handle object is
    written. *)
Theorem last_owner_release (this : var) (s : state) (h : SharedPtr)
    (l : loc) (cb : ControlBlock) :
  vars s !! this = Some h → m_control_block h = Some l →
  heap s !! l = Some cb → m_count cb = 1%Z →
  ∃ s',
    reset this s = Ret tt s' ∧
    operator_assign_nullptr this s = Ret tt s' ∧
    destructor this s = Ret tt s' ∧
    deleted s' = m_deleter cb :: deleted s ∧
    heap s' = delete l (heap s) ∧
    avail s' = S (avail s) ∧
    get this s' = Ret nullptr s' ∧
    use_count this s' = Ret 0%Z s' ∧
    (∀ y, y ≠ this → vars s' !! y = vars s !! y).
Proof.
  intros Hx Hcb Hl Hc.
  pose proof (reset_last_owner this s h l cb Hx Hcb Hl Hc) as Hr.
  eexists. split; [exact Hr|]. split; [exact Hr|]. split; [exact Hr|].
  split; [done|]. split; [done|]. split; [done|].
  split; [by rewrite get_unfold; cbn; rewrite lookup_insert_eq|].
  split; [by rewrite use_count_unfold; cbn; rewrite lookup_insert_eq|].
  intros y Hy. cbn. by rewrite lookup_insert_ne.
Qed.

Lemma last_owner_release_witness :
  ∃ s',
    reset 0 (sole_owner_state (custom_deleter 7) 0) = Ret tt s' ∧
    operator_assign_nullptr 0 (sole_owner_state (custom_deleter 7) 0) = Ret tt s' ∧
    destructor 0 (sole_owner_state (custom_deleter 7) 0) = Ret tt s' ∧
    deleted s' = [make_deleter (custom_deleter 7) 100%Z] ∧
    heap s' = delete 1%positive (heap (sole_owner_state (custom_deleter 7) 0)) ∧
    avail s' = 1 ∧
    get 0 s' = Ret nullptr s' ∧
    use_count 0 s' = Ret 0%Z s' ∧
    (∀ y, y ≠ 0 → vars s' !! y = vars (sole_owner_state (custom_deleter 7) 0) !! y).
Proof.
  apply (last_owner_release 0 (sole_owner_state (custom_deleter 7) 0)
           {| m_control_block := Some 1%positive; m_ptr := 100%Z |} 1%positive
           (ControlBlock_ctor (make_deleter (custom_deleter 7) 100%Z)));
    reflexivity.
Defined.

(** ** Moved-from handles *)

(** X2: after a move construction the source can go out of scope
    without any effect on ownership: its destructor touches no control
    block and runs no deletion action, and the destination keeps the
    pointer and the control block. *)
Theorem moved_from_handle_dies_silently (this other : var) (s : state)
    (o : SharedPtr) :
  vars s !! other = Some o → this ≠ other →
  ∃ s',
    (SharedPtr_move this other ;; leave_scope other) s = Ret tt s' ∧
    vars s' !! this = Some o ∧
    vars s' !! other = None ∧
    heap s' = heap s ∧ deleted s' = deleted s ∧ avail s' = avail s ∧
    (∀ y, y ≠ this → y ≠ other → vars s' !! y = vars s !! y).
Proof.
  intros Ho Hne. unfold bind at 1. rewrite SharedPtr_move_unfold, Ho.
  unfold leave_scope, destructor, release_storage, bind.
  rewrite reset_unfold. cbn. rewrite lookup_insert_eq. cbn.
  eexists. split; [reflexivity|]. cbn.
  split; [by rewrite lookup_delete_ne, lookup_insert_ne, lookup_insert_eq|].
  split; [by rewrite lookup_delete_eq|].
  split; [done|]. split; [done|]. split; [done|].
  intros y Hy1 Hy2. by rewrite lookup_delete_ne, !lookup_insert_ne.
Qed.

Lemma moved_from_handle_dies_silently_witness :
  ∃ s',
    (SharedPtr_move 1 0 ;; leave_scope 0) (sole_owner_state default_delete 0)
      = Ret tt s' ∧
    vars s' !! 1 = Some {| m_control_block := Some 1%positive; m_ptr := 100%Z |} ∧
    vars s' !! 0 = None ∧
    heap s' = heap (sole_owner_state default_delete 0) ∧
    deleted s' = [] ∧ avail s' = 0 ∧
    (∀ y, y ≠ 1 → y ≠ 0 →
          vars s' !! y = vars (sole_owner_state default_delete 0) !! y).
Proof.
  apply (moved_from_handle_dies_silently 1 0 (sole_owner_state default_delete 0)
           {| m_control_block := Some 1%positive; m_ptr := 100%Z |}).
  - reflexivity.
  - lia.
Defined.

(** ** Swap *)

(** X3: swapping twice restores the state, and the order of the two
    arguments does not matter. *)
Theorem swap_involutive (a b : var) (s : state) (ha hb : SharedPtr) :
  vars s !! a = Some ha → vars s !! b = Some hb →
  (swap a b ;; swap a b) s = Ret tt s ∧
  swap a b s = swap b a s.
Proof.
  intros Ha Hb. split.
  - unfold bind. rewrite swap_unfold, Ha, Hb. rewrite swap_unfold. cbn.
    assert (<[b:=ha]> (<[a:=hb]> (vars s)) !! a = Some hb) as ->.
    { rewrite lookup_insert. case_decide; [congruence|].
      by rewrite lookup_insert_eq. }
    rewrite lookup_insert_eq.
    destruct s as [v hp dl av]. unfold set_vars. cbn in *. do 2 f_equal.
    apply map_eq. intros i. rewrite !lookup_insert.
    repeat case_decide; congruence.
  - rewrite !swap_unfold, Ha, Hb. unfold set_vars. do 2 f_equal.
    apply map_eq. intros i. rewrite !lookup_insert.
    repeat case_decide; congruence.
Qed.

Lemma swap_involutive_witness :
  (swap 0 1 ;; swap 0 1) two_owners_state = Ret tt two_owners_state ∧
  swap 0 1 two_owners_state = swap 1 0 two_owners_state.
Proof.
  apply (swap_involutive 0 1 two_owners_state
           {| m_control_block := Some 1%positive; m_ptr := 100%Z |}
           {| m_control_block := Some 2%positive; m_ptr := 200%Z |});
    reflexivity.
Defined.

(** ** Equality of handles *)

(** X4: [operator==] compares the managed addresses only.  On live
    handles it never changes the state, it is reflexive, symmetric and
    transitive, and it holds between a handle and a copy of it. *)
Theorem operator_eq_equivalence (a b c : var) (s : state)
    (ha hb hc : SharedPtr) :
  vars s !! a = Some ha → vars s !! b = Some hb → vars s !! c = Some hc →
  operator_eq a b s = Ret (bool_decide (m_ptr ha = m_ptr hb)) s ∧
  operator_eq a a s = Ret true s ∧
  operator_eq a b s = operator_eq b a s ∧
  (operator_eq a b s = Ret true s → operator_eq b c s = Ret true s →
   operator_eq a c s = Ret true s) ∧
  (∀ d t, SharedPtr_copy d a s = Ret tt t → operator_eq d a t = Ret true t).
Proof.
  intros Ha Hb Hc.
  assert (∀ x y : Z, (x =? y)%Z = bool_decide (x = y)) as Heqb.
  { intros x y. destruct (Z.eqb_spec x y);
      [by rewrite bool_decide_true|by rewrite bool_decide_false]. }
  rewrite !operator_eq_unfold, Ha, Hb, Hc, !Heqb.
  split; [done|]. split; [by rewrite bool_decide_true|].
  split.
  { do 2 f_equal. apply bool_decide_ext. split; congruence. }
  split.
  { intros [= H1%bool_decide_eq_true] [= H2%bool_decide_eq_true].
    rewrite bool_decide_true; [done|congruence]. }
  intros d t. rewrite SharedPtr_copy_unfold, Ha.
  destruct (m_control_block ha) as [l|]; [|done].
  destruct (heap s !! l) as [cb|]; [|done].
  intros [= <-]. rewrite operator_eq_unfold. cbn.
  rewrite lookup_insert_eq, lookup_insert.
  case_decide; [|rewrite Ha]; by rewrite Z.eqb_refl.
Qed.

Lemma operator_eq_equivalence_witness :
  operator_eq 0 1 (two_sharers_state default_delete)
    = Ret true (two_sharers_state default_delete) ∧
  operator_eq 0 1 two_owners_state = Ret false two_owners_state.
Proof.
  split.
  - refine (proj1 (operator_eq_equivalence 0 1 1 (two_sharers_state default_delete)
                     {| m_control_block := Some 1%positive; m_ptr := 100%Z |}
                     {| m_control_block := Some 1%positive; m_ptr := 100%Z |}
                     {| m_control_block := Some 1%positive; m_ptr := 100%Z |} _ _ _));
      reflexivity.
  - refine (proj1 (operator_eq_equivalence 0 1 1 two_owners_state
                     {| m_control_block := Some 1%positive; m_ptr := 100%Z |}
                     {| m_control_block := Some 2%positive; m_ptr := 200%Z |}
                     {| m_control_block := Some 2%positive; m_ptr := 200%Z |} _ _ _));
      reflexivity.
Defined.

(** ** Deletion exactly once *)

Lemma leave_scopes_all (zs : list var) (l : loc) (p : ptr_t)
    (d : erased_deleter_t) (s : state) :
  zs ≠ [] → NoDup zs →
  all_share zs l p s →
  heap s !! l = Some {| m_count := Z.of_nat (length zs); m_deleter := d |} →
  (Z.of_nat (length zs) < size_modulus)%Z →
  leave_scopes zs s =
  Ret tt {| vars := foldl (λ v y, delete y v) (vars s) zs;
            heap := delete l (heap s);
            deleted := d :: deleted s;
            avail := S (avail s) |}.
Proof.
  revert s. induction zs as [|z zs IH]; intros s Hne Hnd Hsh Hl Hlen; [done|].
  apply NoDup_cons in Hnd as [Hz Hnd].
  cbn [leave_scopes]. unfold leave_scope, destructor, release_storage, bind.
  rewrite reset_unfold, (Hsh z) by by left. cbn [m_control_block]. rewrite Hl.
  cbn [m_count m_deleter fetch_sub_1 snd length] in *.
  destruct zs as [|z' zs'].
  - change (Z.of_nat (S (length (@nil var)))) with 1%Z. rewrite Z.eqb_refl.
    cbn. unfold ret, set_vars. cbn. by rewrite delete_insert_eq.
  - destruct (1 =? Z.of_nat (S (length (z' :: zs'))))%Z eqn:Hc;
      [apply Z.eqb_eq in Hc; cbn [length] in Hc; lia|].
    unfold set_vars, set_heap. cbn [vars heap deleted avail].
    rewrite IH; cbn [vars heap deleted avail foldl].
    + do 2 f_equal. by rewrite delete_insert_eq.
    + done.
    + done.
    + intros y Hy. cbn. rewrite lookup_delete_ne by (by intros ->).
      apply Hsh. by right.
    + rewrite lookup_insert_eq. do 2 f_equal.
      rewrite wrap_small; cbn [length] in *; lia.
    + cbn [length] in *. lia.
Qed.

Lemma foldl_delete_lookup_in (zs : list var) (v : gmap var SharedPtr) (z : var) :
  z ∈ zs → foldl (λ v y, delete y v) v zs !! z = None.
Proof.
  revert v. induction zs as [|z' zs IH]; intros v Hz; [by inversion Hz|].
  cbn. destruct (decide (z ∈ zs)) as [Hin|Hnin]; [by apply IH|].
  assert (z = z') as -> by (inversion Hz; by subst).
  by rewrite foldl_delete_lookup_notin, lookup_delete_eq.
Qed.

(** X5: an object is deleted exactly once.  A handle is constructed for
    [instance] with [deleter] and copied [N] times; when the [N + 1]
    handles have gone out of scope, in any order, the deletion action
    bound at construction has run exactly once, the control block has
    been freed, and the heap of control blocks is what it was before
    the construction. *)
Theorem shared_object_deleted_exactly_once
    (x : var) (ys zs : list var) (instance : ptr_t) (deleter : deleter_t)
    (s : state) :
  avail s ≠ O → NoDup (x :: ys) →
  (Z.of_nat (length ys) + 1 < size_modulus)%Z →
  zs ≡ₚ x :: ys →
  ∃ s',
    (SharedPtr_owning x instance deleter ;; copies x ys ;; leave_scopes zs) s
      = Ret tt s' ∧
    deleted s' = make_deleter deleter instance :: deleted s ∧
    heap s' = heap s ∧
    avail s' = avail s ∧
    (∀ z, z ∈ x :: ys → vars s' !! z = None) ∧
    (∀ z, z ∉ x :: ys → vars s' !! z = vars s !! z).
Proof.
  intros Hav Hnd Hlen Hperm.
  destruct (avail s) as [|n] eqn:Havail; [done|].
  pose proof (is_fresh (dom (heap s))) as Hfresh.
  rewrite not_elem_of_dom in Hfresh.
  set (l := fresh (dom (heap s))) in *.
  set (d := make_deleter deleter instance).
  set (hd := {| m_control_block := Some l; m_ptr := instance |}).
  set (N := Z.of_nat (length ys)) in *.
  apply NoDup_cons in Hnd as Hnd'. destruct Hnd' as [Hx Hys].
  set (s1 := {| vars := <[x := hd]> (vars s);
                heap := <[l := ControlBlock_ctor d]> (heap s);
                deleted := deleted s; avail := n |}).
  assert (SharedPtr_owning x instance deleter s = Ret tt s1) as H1.
  { unfold SharedPtr_owning, bind, new_ControlBlock, init_handle.
    by rewrite Havail. }
  assert (vars s1 !! x = Some hd) as Hx1 by (cbn; by rewrite lookup_insert_eq).
  assert (heap s1 !! l = Some {| m_count := 1; m_deleter := d |}) as Hl1
    by (cbn; by rewrite lookup_insert_eq).
  pose proof (copies_shared x ys l instance 1 d s1 Hx1 Hx Hl1) as H2.
  rewrite (Z.add_comm 1) in H2.
  specialize (H2 ltac:(lia) Hlen).
  match type of H2 with _ = Ret tt ?t => set (s2 := t) in * end.
  assert (all_share (x :: ys) l instance s2) as Hshare.
  { intros z Hz. cbn. destruct (decide (z ∈ ys)) as [Hin|Hnin].
    - by apply foldl_insert_lookup_in.
    - rewrite foldl_insert_lookup_notin by done.
      apply elem_of_cons in Hz as [->|Hz]; [|done].
      by rewrite lookup_insert_eq. }
  assert (Z.of_nat (length zs) = N + 1)%Z as Hlz.
  { apply Permutation_length in Hperm. cbn in Hperm. unfold N. lia. }
  assert (heap s2 !! l = Some {| m_count := Z.of_nat (length zs); m_deleter := d |})
    as Hl2 by (cbn; rewrite lookup_insert_eq, Hlz; done).
  assert (zs ≠ []) as Hzs by (intros ->; by apply Permutation_nil_cons in Hperm).
  assert (NoDup zs) as Hndz by (by rewrite Hperm).
  assert (all_share zs l instance s2) as Hsz.
  { intros z Hz. apply Hshare. by rewrite <- Hperm. }
  pose proof (leave_scopes_all zs l instance d s2 Hzs Hndz Hsz Hl2 ltac:(lia)) as H3.
  eexists. split.
  { unfold bind. rewrite H1, H2. exact H3. }
  cbn [deleted heap avail vars s2 s1].
  split; [done|].
  split; [by rewrite !delete_insert_eq, delete_id|].
  split; [done|].
  split.
  - intros z Hz. apply foldl_delete_lookup_in. by rewrite Hperm.
  - intros z Hz. rewrite foldl_delete_lookup_notin by (by rewrite Hperm).
    rewrite foldl_insert_lookup_notin by (intros Hin; apply Hz; by right).
    rewrite lookup_insert_ne; [done|]. intros ->. apply Hz. by left.
Qed.

Lemma shared_object_deleted_exactly_once_witness :
  ∃ s',
    (SharedPtr_owning 0 100%Z (custom_deleter 7) ;; copies 0 [1; 2] ;;
     leave_scopes [0; 2; 1]) (initial_state 1) = Ret tt s' ∧
    deleted s' = [make_deleter (custom_deleter 7) 100%Z] ∧
    heap s' = ∅ ∧
    avail s' = 1 ∧
    (∀ z, z ∈ [0; 1; 2] → vars s' !! z = None) ∧
    (∀ z, z ∉ [0; 1; 2] → vars s' !! z = vars (initial_state 1) !! z).
Proof.
  apply (shared_object_deleted_exactly_once 0 [1; 2] [0; 2; 1] 100%Z
           (custom_deleter 7) (initial_state 1)).
  - cbn. lia.
  - apply (bool_decide_unpack (NoDup [0; 1; 2])). vm_compute. exact I.
  - unfold size_modulus. cbn. lia.
  - apply perm_skip, perm_swap.
Defined.

(** ** Copies in a scope *)

Lemma counter_round_trip (c : Z) :
  (1 ≤ c < size_modulus)%Z →
  (1 =? wrap (c + 1))%Z = false ∧ wrap (wrap (c + 1) - 1) = c.
Proof.
  intros Hc. unfold wrap. split.
  - destruct (decide (c + 1 = size_modulus)%Z) as [->|Hne].
    + by rewrite Z.mod_same.
    + rewrite Z.mod_small by lia. lia.
  - rewrite Zminus_mod_idemp_l.
    replace (c + 1 - 1)%Z with c by lia. apply Z.mod_small. lia.
Qed.

Lemma scoped_copy_restores (x y : var) (s : state) (h : SharedPtr)
    (l : loc) (cb : ControlBlock) :
  vars s !! x = Some h → m_control_block h = Some l →
  heap s !! l = Some cb → (1 ≤ m_count cb < size_modulus)%Z →
  vars s !! y = None →
  scoped_copy x y s = Ret tt s.
Proof.
  intros Hx Hcb Hl Hc Hy.
  destruct (counter_round_trip (m_count cb) Hc) as [Hne Hback].
  unfold scoped_copy, leave_scope, destructor, release_storage, bind.
  rewrite SharedPtr_copy_unfold, Hx, Hcb, Hl.
  rewrite reset_unfold. cbn [vars heap deleted avail].
  rewrite lookup_insert_eq, Hcb, lookup_insert_eq.
  cbn [increment_count m_count m_deleter fetch_sub_1 snd]. rewrite Hne, Hback.
  destruct s as [v hp dl av]. destruct cb as [c d].
  unfold set_vars, set_heap. cbn in *. do 2 f_equal.
  - by apply delete_insert_id.
  - rewrite insert_insert_eq. by apply insert_id.
Qed.

(** X6: a loop whose body declares a copy of a handle and lets it go
    out of scope leaves the state exactly as it found it, however many
    times it runs and even when the counter passes through its largest
    value: the counter, the deletion log and the free store are
    unchanged. *)
Theorem scoped_copy_loop_restores (n : nat) (x y : var) (s : state)
    (h : SharedPtr) (l : loc) (cb : ControlBlock) :
  vars s !! x = Some h → m_control_block h = Some l →
  heap s !! l = Some cb → (1 ≤ m_count cb < size_modulus)%Z →
  vars s !! y = None →
  scoped_copy_loop n x y s = Ret tt s.
Proof.
  intros Hx Hcb Hl Hc Hy. induction n as [|n IH]; [done|].
  cbn [scoped_copy_loop]. unfold bind.
  by rewrite (scoped_copy_restores x y s h l cb).
Qed.

Lemma scoped_copy_loop_restores_witness :
  scoped_copy_loop 100 0 1 (sole_owner_state default_delete 0)
    = Ret tt (sole_owner_state default_delete 0).
Proof.
  apply (scoped_copy_loop_restores 100 0 1 (sole_owner_state default_delete 0)
           {| m_control_block := Some 1%positive; m_ptr := 100%Z |} 1%positive
           (ControlBlock_ctor (make_deleter default_delete 100%Z))).
  - reflexivity.
  - reflexivity.
  - reflexivity.
  - unfold size_modulus. cbn. lia.
  - reflexivity.
Defined.

(** ** Copy assignment between different objects *)

(** X7: assigning a live non-empty handle [other] to a handle [this]
    with a different managed address replaces the ownership of [this]:
    afterwards [this] holds the members of [other], the two compare
    equal, and both report the count of [other] plus one.  The old
    ownership of [this] is released: nothing happens if it was empty,
    its counter goes down by one if other owners remain, and its
    deletion action runs and its block is freed if it was the last
    owner. *)
Theorem operator_assign_replaces (this other : var) (s : state)
    (h o : SharedPtr) (lo : loc) (cbo : ControlBlock) :
  vars s !! this = Some h → vars s !! other = Some o →
  m_ptr h ≠ m_ptr o →
  m_control_block o = Some lo → heap s !! lo = Some cbo →
  (0 ≤ m_count cbo)%Z → (m_count cbo + 1 < size_modulus)%Z →
  (∀ lh, m_control_block h = Some lh → lh ≠ lo ∧ is_Some (heap s !! lh)) →
  ∃ s',
    operator_assign this other s = Ret tt s' ∧
    vars s' !! this = Some o ∧
    vars s' !! other = Some o ∧
    operator_eq this other s' = Ret true s' ∧
    use_count this s' = Ret (m_count cbo + 1)%Z s' ∧
    use_count other s' = Ret (m_count cbo + 1)%Z s' ∧
    (m_control_block h = None → deleted s' = deleted s) ∧
    (∀ lh cbh, m_control_block h = Some lh → heap s !! lh = Some cbh →
       if (m_count cbh =? 1)%Z
       then deleted s' = m_deleter cbh :: deleted s ∧ heap s' !! lh = None
       else deleted s' = deleted s ∧
            heap s' !! lh = Some {| m_count := wrap (m_count cbh - 1);
                                    m_deleter := m_deleter cbh |}).
Proof.
  intros Hx Ho Hne Hcbo Hlo Hc0 Hc Hlive.
  assert ((m_ptr h =? m_ptr o)%Z = false) as Hb by lia.
  assert (this ≠ other) as Hvar by (intros ->; congruence).
  rewrite operator_assign_unfold, Hx, Ho, Hb. unfold bind.
  rewrite reset_unfold, Hx.
  assert (wrap (m_count cbo + 1) = (m_count cbo + 1)%Z) as Hw
    by (apply wrap_small; lia).
  assert (∀ (v : gmap var SharedPtr) (hp : gmap loc ControlBlock) dl av,
            v !! other = Some o → hp !! lo = Some cbo →
            let t := {| vars := <[this := o]> v;
                        heap := <[lo := increment_count cbo]> hp;
                        deleted := dl; avail := av |} in
            vars t !! this = Some o ∧ vars t !! other = Some o ∧
            operator_eq this other t = Ret true t ∧
            use_count this t = Ret (m_count cbo + 1)%Z t ∧
            use_count other t = Ret (m_count cbo + 1)%Z t) as Hafter.
  { intros v hp dl av Hvo Hhp t.
    assert (vars t !! this = Some o) as Ht1 by (cbn; by rewrite lookup_insert_eq).
    assert (vars t !! other = Some o) as Ht2 by (cbn; by rewrite lookup_insert_ne).
    split; [done|]. split; [done|].
    rewrite operator_eq_unfold, !use_count_unfold, Ht1, Ht2, Hcbo, Z.eqb_refl.
    cbn [heap t]. rewrite lookup_insert_eq. cbn. by rewrite Hw. }
  destruct (m_control_block h) as [lh|] eqn:Hcbh.
  - destruct (Hlive lh eq_refl) as [Hll [cbh Hlh]]. rewrite Hlh.
    destruct (1 =? m_count cbh)%Z eqn:Hone.
    + rewrite SharedPtr_copy_unfold. cbn [vars heap deleted avail].
      rewrite lookup_insert_ne, Ho, Hcbo, lookup_delete_ne, Hlo by done.
      eexists. split; [reflexivity|].
      rewrite insert_insert_eq.
      destruct (Hafter (vars s) (delete lh (heap s)) (m_deleter cbh :: deleted s)
                  (S (avail s)) Ho) as (?&?&?&?&?);
        [by rewrite lookup_delete_ne|].
      repeat (split; [done|]).
      intros lh' cbh' [= <-]. rewrite Hlh. intros [= <-].
      rewrite Z.eqb_sym, Hone. cbn. split; [done|].
      by rewrite lookup_insert_ne, lookup_delete_eq.
    + rewrite SharedPtr_copy_unfold. cbn [vars heap deleted avail set_heap].
      rewrite Ho, Hcbo, lookup_insert_ne, Hlo by done.
      eexists. split; [reflexivity|].
      destruct (Hafter (vars s) (<[lh := (fetch_sub_1 cbh).2]> (heap s))
                  (deleted s) (avail s) Ho) as (?&?&?&?&?);
        [by rewrite lookup_insert_ne|].
      repeat (split; [done|]).
      intros lh' cbh' [= <-]. rewrite Hlh. intros [= <-].
      rewrite Z.eqb_sym, Hone. cbn. split; [done|].
      by rewrite lookup_insert_ne, lookup_insert_eq.
  - rewrite SharedPtr_copy_unfold, Ho, Hcbo, Hlo.
    eexists. split; [reflexivity|].
    destruct (Hafter (vars s) (heap s) (deleted s) (avail s) Ho Hlo)
      as (?&?&?&?&?).
    repeat (split; [done|]). by intros lh' cbh' [=].
Qed.

Lemma operator_assign_replaces_witness :
  ∃ s',
    operator_assign 0 1 two_owners_state = Ret tt s' ∧
    vars s' !! 0 = Some {| m_control_block := Some 2%positive; m_ptr := 200%Z |} ∧
    operator_eq 0 1 s' = Ret true s' ∧
    use_count 0 s' = Ret 2%Z s' ∧
    use_count 1 s' = Ret 2%Z s' ∧
    deleted s' = [make_deleter default_delete 100%Z] ∧
    heap s' !! 1%positive = None.
Proof.
  destruct (operator_assign_replaces 0 1 two_owners_state
              {| m_control_block := Some 1%positive; m_ptr := 100%Z |}
              {| m_control_block := Some 2%positive; m_ptr := 200%Z |}
              2%positive (ControlBlock_ctor (make_deleter default_delete 200%Z)))
    as (s' & Hrun & Hthis & _ & Heq & Hc1 & Hc2 & _ & Hrel).
  - reflexivity.
  - reflexivity.
  - cbn. lia.
  - reflexivity.
  - reflexivity.
  - cbn. lia.
  - unfold size_modulus. cbn. lia.
  - intros lh [= <-]. split; [lia|]. eexists. reflexivity.
  - destruct (Hrel 1%positive
                (ControlBlock_ctor (make_deleter default_delete 100%Z))
                eq_refl eq_refl) as [Hdel Hfree].
    exists s'. repeat split; assumption.
Defined.

(** X8: assigning an empty handle to a handle with a different managed
    address is undefined: [operator=] destroys the handle in place and
    then copy-constructs it from the empty one, and the copy constructor
    increments through the null control-block pointer. *)
Theorem operator_assign_from_empty_undefined (this other : var) (s : state)
    (h o : SharedPtr) :
  vars s !! this = Some h → vars s !! other = Some o →
  m_ptr h ≠ m_ptr o → m_control_block o = None →
  operator_assign this other s = Undefined.
Proof.
  intros Hx Ho Hne Hcbo.
  assert ((m_ptr h =? m_ptr o)%Z = false) as Hb by lia.
  assert (this ≠ other) as Hvar by (intros ->; congruence).
  rewrite operator_assign_unfold, Hx, Ho, Hb. unfold bind.
  rewrite reset_unfold, Hx.
  destruct (m_control_block h) as [lh|].
  - destruct (heap s !! lh) as [cbh|]; [|done].
    destruct (1 =? m_count cbh)%Z; rewrite SharedPtr_copy_unfold; cbn.
    + by rewrite lookup_insert_ne, Ho, Hcbo.
    + by rewrite Ho, Hcbo.
  - by rewrite SharedPtr_copy_unfold, Ho, Hcbo.
Qed.

Lemma operator_assign_from_empty_undefined_witness :
  operator_assign 0 1 owner_and_empty_state = Undefined.
Proof.
  apply (operator_assign_from_empty_undefined 0 1 owner_and_empty_state
           {| m_control_block := Some 1%positive; m_ptr := 100%Z |} empty_handle).
  - reflexivity.
  - reflexivity.
  - cbn. unfold nullptr. lia.
  - reflexivity.
Defined.

(** ** Assignment from a raw pointer releases the old ownership *)

(** X9: when a handle that owns an object is assigned a different raw
    pointer and the allocation succeeds, it becomes the sole owner of
    the new pointer ([use_count() == 1]) and gives up the old object:
    if it was the last owner, the deletion action of the old block runs
    on the old pointer and the block is freed; otherwise the old counter
    goes down by one and nothing is deleted. *)
Theorem operator_assign_ptr_releases_old (this : var) (ptr : ptr_t)
    (s : state) (h : SharedPtr) (l0 : loc) (cb0 : ControlBlock) :
  vars s !! this = Some h → m_ptr h ≠ ptr → avail s ≠ O →
  m_control_block h = Some l0 → heap s !! l0 = Some cb0 →
  ∃ s',
    operator_assign_ptr this ptr s = Ret tt s' ∧
    get this s' = Ret ptr s' ∧
    use_count this s' = Ret 1%Z s' ∧
    (∀ y, y ≠ this → vars s' !! y = vars s !! y) ∧
    if (m_count cb0 =? 1)%Z
    then deleted s' = m_deleter cb0 :: deleted s ∧
         heap s' !! l0 = None ∧ avail s' = avail s
    else deleted s' = deleted s ∧
         heap s' !! l0 = Some {| m_count := wrap (m_count cb0 - 1);
                                 m_deleter := m_deleter cb0 |} ∧
         S (avail s') = avail s.
Proof.
  intros Hx Hne Ha Hcb Hl0.
  assert ((m_ptr h =? ptr)%Z = false) as Hb by lia.
  destruct (avail s) as [|n] eqn:Hav; [done|].
  pose proof (is_fresh (dom (heap s))) as Hfresh.
  rewrite not_elem_of_dom in Hfresh.
  rewrite operator_assign_ptr_unfold, Hx, Hb, Hav. cbn zeta.
  set (l := fresh (dom (heap s))) in *.
  assert (l ≠ l0) as Hll by (intros ->; congruence).
  unfold bind. rewrite reset_unfold. cbn [vars heap deleted avail].
  rewrite Hx, Hcb, lookup_insert_ne, Hl0 by done.
  rewrite (Z.eqb_sym (m_count cb0)).
  destruct (1 =? m_count cb0)%Z; cbn; eexists; (split; [reflexivity|]);
    rewrite get_unfold, use_count_unfold; cbn; rewrite lookup_insert_eq; cbn.
  - split; [done|].
    rewrite lookup_delete_ne, lookup_insert_eq by done. split; [done|].
    split; [by intros y Hy; rewrite !lookup_insert_ne|].
    split; [done|]. split; [|done].
    by rewrite lookup_delete_eq.
  - split; [done|].
    rewrite lookup_insert_ne, lookup_insert_eq by done. split; [done|].
    split; [by intros y Hy; rewrite lookup_insert_ne|].
    split; [done|]. split; [|done].
    by rewrite lookup_insert_eq.
Qed.

Lemma operator_assign_ptr_releases_old_witness :
  ∃ s',
    operator_assign_ptr 1 300%Z (two_sharers_state (custom_deleter 7)) = Ret tt s' ∧
    get 1 s' = Ret 300%Z s' ∧
    use_count 1 s' = Ret 1%Z s' ∧
    use_count 0 s' = Ret 1%Z s' ∧
    deleted s' = [].
Proof.
  destruct (operator_assign_ptr_releases_old 1 300%Z
              (two_sharers_state (custom_deleter 7))
              {| m_control_block := Some 1%positive; m_ptr := 100%Z |} 1%positive
              {| m_count := 2; m_deleter := make_deleter (custom_deleter 7) 100%Z |})
    as (s' & Hrun & Hget & Huse & Hother & Hdel & Hold & _).
  - reflexivity.
  - cbn. lia.
  - cbn. lia.
  - reflexivity.
  - reflexivity.
  - exists s'. split; [exact Hrun|]. split; [exact Hget|]. split; [exact Huse|].
    split; [|exact Hdel].
    rewrite use_count_unfold, (Hother 0) by lia.
    change (vars (two_sharers_state (custom_deleter 7)) !! 0)
      with (Some {| m_control_block := Some 1%positive; m_ptr := 100%Z |}).
    cbn [m_control_block]. by rewrite Hold.
Defined.

(** ** What construction, copying, moving and swapping never do *)

(** X10: a constructor, a copy, a move or a swap never runs a deletion
    action and never frees a control block, whether it returns or
    throws. *)
Theorem acquiring_calls_release_nothing (c : call) (s s' : state) :
  acquires_only c = true →
  final_state (exec c s) = Some s' →
  deleted s' = deleted s ∧
  ∀ l, is_Some (heap s !! l) → is_Some (heap s' !! l).
Proof.
  intros Hc.
  assert (∀ this other,
            final_state (SharedPtr_copy this other s) = Some s' →
            deleted s' = deleted s ∧
            ∀ l, is_Some (heap s !! l) → is_Some (heap s' !! l)) as Hcopy.
  { intros this other. rewrite SharedPtr_copy_unfold.
    destruct (vars s !! other) as [o|]; [|done].
    destruct (m_control_block o) as [l0|]; [|done].
    destruct (heap s !! l0) as [cb|]; [|done].
    intros [= <-]. split; [done|]. intros l Hl. cbn.
    rewrite lookup_insert. case_decide; eauto. }
  assert (∀ this other,
            final_state (SharedPtr_move this other s) = Some s' →
            deleted s' = deleted s ∧
            ∀ l, is_Some (heap s !! l) → is_Some (heap s' !! l)) as Hmove.
  { intros this other. rewrite SharedPtr_move_unfold.
    destruct (vars s !! other) as [o|]; [|done]. by intros [= <-]. }
  destruct c; try done; cbn [exec].
  - by intros [= <-].
  - by intros [= <-].
  - unfold SharedPtr_owning, bind, new_ControlBlock, init_handle.
    destruct (avail s) as [|n]; intros [= <-]; [done|].
    split; [done|]. intros l Hl. cbn.
    rewrite lookup_insert. case_decide; eauto.
  - apply Hcopy.
  - apply Hcopy.
  - apply Hmove.
  - apply Hmove.
  - rewrite swap_unfold.
    destruct (vars s !! lhs) as [l|]; [|done].
    destruct (vars s !! rhs) as [r|]; [|done]. by intros [= <-].
Qed.

Lemma acquiring_calls_release_nothing_witness :
  acquires_only (CCopy 2 0) = true ∧
  ∃ s', final_state (exec (CCopy 2 0) (two_sharers_state default_delete)) = Some s' ∧
        deleted s' = [] ∧
        ∀ l, is_Some (heap (two_sharers_state default_delete) !! l) →
             is_Some (heap s' !! l).
Proof.
  split; [reflexivity|].
  eexists. split; [reflexivity|].
  apply (acquiring_calls_release_nothing (CCopy 2 0)
           (two_sharers_state default_delete)); reflexivity.
Defined.

(** ** Bounds on the counter *)

Lemma counter_bounds_mono (k k' : Z) (s : state) :
  (k ≤ k')%Z → counter_bounds k s → counter_bounds k' s.
Proof.
  intros Hk Hb Hk' l cb Hl. specialize (Hb ltac:(lia) l cb Hl). lia.
Qed.

Lemma counter_bounds_same_heap (k : Z) (s s' : state) :
  heap s' = heap s → counter_bounds k s → counter_bounds k s'.
Proof. intros Hh Hb Hk l cb. rewrite Hh. by apply Hb. Qed.

Lemma counter_bounds_new_block (k : Z) (s : state) (l : loc)
    (d : erased_deleter_t) (v : gmap var SharedPtr) (n : nat) :
  (0 ≤ k)%Z → counter_bounds k s →
  counter_bounds (k + 1)
    {| vars := v; heap := <[l := ControlBlock_ctor d]> (heap s);
       deleted := deleted s; avail := n |}.
Proof.
  intros Hk0 Hb Hk l' cb'. cbn. rewrite lookup_insert.
  case_decide; [intros [= <-]; cbn; lia |].
  intros H'. specialize (Hb ltac:(lia) l' cb' H'). lia.
Qed.

Lemma reset_counter_bounds (this : var) (k : Z) (s s' : state) :
  counter_bounds k s →
  final_state (reset this s) = Some s' → counter_bounds k s'.
Proof.
  intros Hb. rewrite reset_unfold.
  destruct (vars s !! this) as [h|] eqn:Hx; [|done].
  destruct (m_control_block h) as [l|]; [|by intros [= <-]].
  destruct (heap s !! l) as [cb|] eqn:Hl; [|done].
  destruct (1 =? m_count cb)%Z eqn:Hc; intros [= <-]; intros Hk l' cb'; cbn.
  - rewrite lookup_delete_Some. intros [_ H]. exact (Hb Hk _ _ H).
  - rewrite lookup_insert.
    case_decide; [|exact (Hb Hk l' cb')]. intros [= <-]. cbn.
    specialize (Hb Hk l cb Hl). rewrite wrap_small; lia.
Qed.

Lemma SharedPtr_copy_counter_bounds (this other : var) (k : Z) (s s' : state) :
  counter_bounds k s →
  final_state (SharedPtr_copy this other s) = Some s' →
  counter_bounds (k + 1) s'.
Proof.
  intros Hb. rewrite SharedPtr_copy_unfold.
  destruct (vars s !! other) as [o|] eqn:Ho; [|done].
  destruct (m_control_block o) as [l|]; [|done].
  destruct (heap s !! l) as [cb|] eqn:Hl; [|done].
  intros [= <-] Hk l' cb'. cbn. rewrite lookup_insert.
  case_decide.
  - intros [= <-]. cbn. specialize (Hb ltac:(lia) l cb Hl).
    rewrite wrap_small; lia.
  - intros H'. specialize (Hb ltac:(lia) l' cb' H'). lia.
Qed.

Lemma exec_counter_bounds (c : call) (k : Z) (s s' : state) :
  (0 ≤ k)%Z → counter_bounds k s →
  final_state (exec c s) = Some s' → counter_bounds (k + 1) s'.
Proof.
  intros Hk0 Hb.
  assert (∀ t, counter_bounds k t → counter_bounds (k + 1) t) as Hup
    by (intros t; apply counter_bounds_mono; lia).
  assert (∀ this other,
            final_state (SharedPtr_move this other s) = Some s' →
            counter_bounds (k + 1) s') as Hmove.
  { intros this other. rewrite SharedPtr_move_unfold.
    destruct (vars s !! other) as [o|]; [|done]. intros [= <-].
    by apply Hup, (counter_bounds_same_heap k s). }
  destruct c; cbn [exec].
  - intros [= <-]. by apply Hup, (counter_bounds_same_heap k s).
  - intros [= <-]. by apply Hup, (counter_bounds_same_heap k s).
  - unfold SharedPtr_owning, bind, new_ControlBlock, init_handle.
    destruct (avail s) as [|n]; intros [= <-]; [by apply Hup|].
    unfold set_vars. cbn. by apply counter_bounds_new_block.
  - by apply SharedPtr_copy_counter_bounds.
  - by apply SharedPtr_copy_counter_bounds.
  - apply Hmove.
  - apply Hmove.
  - intros H. eapply Hup, reset_counter_bounds; done.
  - intros H. eapply Hup, reset_counter_bounds; done.
  - rewrite operator_assign_ptr_unfold.
    destruct (vars s !! this) as [h|]; [|done].
    destruct (m_ptr h =? ptr)%Z; [intros [= <-]; by apply Hup|].
    destruct (avail s) as [|n]; [intros [= <-]; by apply Hup|].
    cbn zeta. intros Hfin.
    apply final_state_bind in Hfin as [Hthrow|([] & s1 & Hreset & Hfin)].
    + eapply reset_counter_bounds; [|by rewrite Hthrow].
      by apply counter_bounds_new_block.
    + unfold init_handle in Hfin. cbn in Hfin. injection Hfin as <-.
      eapply (counter_bounds_same_heap _ s1); [done|].
      eapply reset_counter_bounds; [|by rewrite Hreset].
      by apply counter_bounds_new_block.
  - rewrite operator_assign_unfold.
    destruct (vars s !! this) as [h|]; [|done].
    destruct (vars s !! other) as [o|]; [|done].
    destruct (m_ptr h =? m_ptr o)%Z; [intros [= <-]; by apply Hup|].
    intros Hfin.
    apply final_state_bind in Hfin as [Hthrow|([] & s1 & Hreset & Hfin)].
    + eapply Hup, reset_counter_bounds; [done|by rewrite Hthrow].
    + eapply SharedPtr_copy_counter_bounds; [|exact Hfin].
      eapply reset_counter_bounds; [done|by rewrite Hreset].
  - rewrite swap_unfold.
    destruct (vars s !! lhs) as [l|]; [|done].
    destruct (vars s !! rhs) as [r|]; [|done]. intros [= <-].
    by apply Hup, (counter_bounds_same_heap k s).
  - rewrite leave_scope_unfold. intros Hfin.
    apply final_state_bind in Hfin as [Hthrow|([] & s1 & Hreset & Hfin)].
    + eapply Hup, reset_counter_bounds; [done|by rewrite Hthrow].
    + unfold release_storage in Hfin. cbn in Hfin. injection Hfin as <-.
      eapply Hup, (counter_bounds_same_heap _ s1); [done|].
      eapply reset_counter_bounds; [done|by rewrite Hreset].
Qed.

Lemma run_counter_bounds (cs : list call) (k : Z) (s s' : state) :
  (0 ≤ k)%Z → counter_bounds k s →
  final_state (run cs s) = Some s' →
  counter_bounds (k + Z.of_nat (length cs)) s'.
Proof.
  revert k s. induction cs as [|c cs IH]; intros k s Hk0 Hb.
  - cbn. intros [= <-]. by rewrite Z.add_0_r.
  - cbn [run length]. intros Hfin.
    apply final_state_bind in Hfin as [Hthrow|([] & s1 & Hexec & Hfin)].
    + eapply counter_bounds_mono;
        [|eapply (exec_counter_bounds c k s); [done|done|by rewrite Hthrow]].
      lia.
    + replace (k + Z.of_nat (S (length cs)))%Z
        with ((k + 1) + Z.of_nat (length cs))%Z by lia.
      eapply IH; [lia| |exact Hfin].
      eapply exec_counter_bounds; [done|exact Hb|by rewrite Hexec].
Qed.

(** X11: in every state reached from the initial state by fewer than
    2^64 calls of the interface, whatever pointers they pass, the
    counter of every live control block is at least 1 and at most the
    number of calls made; hence [use_count()] of a handle with a control
    block, when it returns, is never 0. *)
Theorem live_counters_positive (cs : list call) (n : nat) (s : state) :
  (Z.of_nat (length cs) < size_modulus)%Z →
  final_state (run cs (initial_state n)) = Some s →
  (∀ l cb, heap s !! l = Some cb →
           (1 ≤ m_count cb ≤ Z.of_nat (length cs))%Z) ∧
  (∀ x h c s', vars s !! x = Some h → m_control_block h ≠ None →
               use_count x s = Ret c s' →
               (1 ≤ c ≤ Z.of_nat (length cs))%Z).
Proof.
  intros Hlen Hfin.
  assert (counter_bounds (0 + Z.of_nat (length cs)) s) as Hb.
  { eapply run_counter_bounds; [done| |exact Hfin].
    intros _ l cb. cbn. by rewrite lookup_empty. }
  rewrite Z.add_0_l in Hb. specialize (Hb Hlen).
  split; [exact Hb|].
  intros x h c s' Hx Hcb. rewrite use_count_unfold, Hx.
  destruct (m_control_block h) as [l|]; [|done].
  destruct (heap s !! l) as [cb|] eqn:Hl; [|done].
  intros [= <- <-]. by eapply Hb.
Qed.

Lemma live_counters_positive_witness :
  (3 < size_modulus)%Z ∧
  final_state
    (run [COwning 0 nullptr default_delete; CCopy 1 0; CAssignPtr 1 200%Z]
       (initial_state 2))
    = Some null_owner_state ∧
  ∀ c s', use_count 0 null_owner_state = Ret c s' → (1 ≤ c ≤ 3)%Z.
Proof.
  split; [unfold size_modulus; lia|]. split; [reflexivity|].
  intros c s'.
  refine (proj2 (live_counters_positive
                   [COwning 0 nullptr default_delete; CCopy 1 0; CAssignPtr 1 200%Z]
                   2 null_owner_state _ _) 0
            {| m_control_block := Some 1%positive; m_ptr := nullptr |} c s' _ _).
  - unfold size_modulus. cbn. lia.
  - reflexivity.
  - reflexivity.
  - discriminate.
Defined.

(** ** Copies and const views *)

(** X12: copy construction from a live non-empty handle, plain or
    converting to a handle to const, gives the new handle the same
    pointer and the same control block, adds one to the counter seen
    through both handles, keeps the deletion action of the block, and
    neither runs a deletion action nor allocates. *)
Theorem copy_construction_shares (this other : var) (s : state)
    (o : SharedPtr) (l : loc) (cb : ControlBlock) :
  vars s !! other = Some o → m_control_block o = Some l →
  heap s !! l = Some cb →
  (0 ≤ m_count cb)%Z → (m_count cb + 1 < size_modulus)%Z →
  ∃ s',
    SharedPtr_copy this other s = Ret tt s' ∧
    SharedPtr_copy_const this other s = Ret tt s' ∧
    vars s' !! this = Some o ∧ vars s' !! other = Some o ∧
    get this s' = Ret (m_ptr o) s' ∧
    use_count this s' = Ret (m_count cb + 1)%Z s' ∧
    use_count other s' = Ret (m_count cb + 1)%Z s' ∧
    heap s' !! l = Some {| m_count := m_count cb + 1; m_deleter := m_deleter cb |} ∧
    (∀ l', l' ≠ l → heap s' !! l' = heap s !! l') ∧
    deleted s' = deleted s ∧ avail s' = avail s.
Proof.
  intros Ho Hcb Hl Hc0 Hc.
  assert (SharedPtr_copy this other s =
          Ret tt {| vars := <[this := o]> (vars s);
                    heap := <[l := increment_count cb]> (heap s);
                    deleted := deleted s; avail := avail s |}) as Hrun
    by (by rewrite SharedPtr_copy_unfold, Ho, Hcb, Hl).
  eexists. split; [exact Hrun|]. split; [exact Hrun|].
  assert (increment_count cb =
          {| m_count := m_count cb + 1; m_deleter := m_deleter cb |}) as Hinc
    by (unfold increment_count; rewrite wrap_small; [done|lia]).
  assert (<[this:=o]> (vars s) !! other = Some o) as Hother
    by (rewrite lookup_insert; by case_decide).
  rewrite get_unfold, !use_count_unfold. cbn [vars heap deleted avail].
  rewrite lookup_insert_eq, Hother, Hcb, lookup_insert_eq, Hinc.
  repeat (split; [done|]). split; [|done].
  intros l' Hl'. by rewrite lookup_insert_ne.
Qed.

Lemma copy_construction_shares_witness :
  ∃ s',
    SharedPtr_copy 1 0 (sole_owner_state (custom_deleter 7) 0) = Ret tt s' ∧
    SharedPtr_copy_const 1 0 (sole_owner_state (custom_deleter 7) 0) = Ret tt s' ∧
    get 1 s' = Ret 100%Z s' ∧
    use_count 1 s' = Ret 2%Z s' ∧
    use_count 0 s' = Ret 2%Z s' ∧
    deleted s' = [].
Proof.
  destruct (copy_construction_shares 1 0 (sole_owner_state (custom_deleter 7) 0)
              {| m_control_block := Some 1%positive; m_ptr := 100%Z |} 1%positive
              (ControlBlock_ctor (make_deleter (custom_deleter 7) 100%Z)))
    as (s' & H1 & H2 & _ & _ & Hg & Hu1 & Hu0 & _ & _ & Hd & _).
  - reflexivity.
  - reflexivity.
  - reflexivity.
  - cbn. lia.
  - unfold size_modulus. cbn. lia.
  - exists s'. repeat split; assumption.
Defined.

(** X13: a sole owner moved into a handle to const: the new handle
    takes the ownership without touching the counter, and when both
    handles have gone out of scope, in either order, the deletion action
    has run exactly once and the control block has been freed. *)
Theorem const_move_takes_sole_ownership (this other : var) (s : state)
    (o : SharedPtr) (l : loc) (cb : ControlBlock) :
  vars s !! other = Some o → m_control_block o = Some l →
  heap s !! l = Some cb → m_count cb = 1%Z → this ≠ other →
  ∃ s1 s2,
    SharedPtr_move_const this other s = Ret tt s1 ∧
    vars s1 !! this = Some o ∧
    vars s1 !! other = Some {| m_control_block := None; m_ptr := nullptr |} ∧
    heap s1 = heap s ∧
    use_count this s1 = Ret 1%Z s1 ∧
    use_count other s1 = Ret 0%Z s1 ∧
    (leave_scope this ;; leave_scope other) s1 = Ret tt s2 ∧
    (leave_scope other ;; leave_scope this) s1 = Ret tt s2 ∧
    deleted s2 = m_deleter cb :: deleted s ∧
    heap s2 = delete l (heap s) ∧
    vars s2 !! this = None ∧ vars s2 !! other = None.
Proof.
  intros Ho Hcb Hl Hc Hne.
  rewrite SharedPtr_move_const_unfold, SharedPtr_move_unfold, Ho.
  set (s1 := set_vars (λ v, <[other:=empty_handle]> (<[this:=o]> v)) s).
  assert (vars s1 !! this = Some o) as Ht
    by (cbn; by rewrite lookup_insert_ne, lookup_insert_eq).
  assert (vars s1 !! other = Some empty_handle) as Hoth
    by (cbn; by rewrite lookup_insert_eq).
  assert ((1 =? m_count cb)%Z = true) as Hone by lia.
  set (s2 := {| vars := delete other (delete this (vars s1));
                heap := delete l (heap s);
                deleted := m_deleter cb :: deleted s;
                avail := S (avail s) |}).
  exists s1, s2.
  split; [done|]. split; [done|]. split; [done|]. split; [done|].
  split; [by rewrite use_count_unfold, Ht, Hcb; cbn; rewrite Hl, Hc|].
  split; [by rewrite use_count_unfold, Hoth|].
  split.
  { unfold leave_scope, destructor, release_storage, bind.
    rewrite reset_unfold, Ht, Hcb. cbn [heap s1 set_vars]. rewrite Hl, Hone.
    rewrite reset_unfold. cbn [vars heap deleted avail set_vars].
    rewrite lookup_delete_ne, lookup_insert_ne by done.
    rewrite Hoth. cbn.
    unfold s2, set_vars. cbn. by rewrite delete_insert_eq. }
  split.
  { unfold leave_scope, destructor, release_storage, bind.
    rewrite reset_unfold, Hoth. cbn [m_control_block empty_handle].
    rewrite reset_unfold. cbn [vars heap deleted avail set_vars].
    rewrite lookup_delete_ne by done. rewrite Ht, Hcb. cbn.
    rewrite Hl, Hone. unfold s2, set_vars. cbn. do 2 f_equal.
    rewrite delete_insert_eq. apply delete_delete. }
  split; [done|]. split; [done|]. cbn.
  split; [by rewrite lookup_delete_ne, lookup_delete_eq|].
  by rewrite lookup_delete_eq.
Qed.

Lemma const_move_takes_sole_ownership_witness :
  ∃ s1 s2,
    SharedPtr_move_const 1 0 (sole_owner_state default_delete 0) = Ret tt s1 ∧
    use_count 1 s1 = Ret 1%Z s1 ∧
    use_count 0 s1 = Ret 0%Z s1 ∧
    (leave_scope 1 ;; leave_scope 0) s1 = Ret tt s2 ∧
    deleted s2 = [make_deleter default_delete 100%Z] ∧
    heap s2 = delete 1%positive (heap (sole_owner_state default_delete 0)).
Proof.
  destruct (const_move_takes_sole_ownership 1 0 (sole_owner_state default_delete 0)
              {| m_control_block := Some 1%positive; m_ptr := 100%Z |} 1%positive
              (ControlBlock_ctor (make_deleter default_delete 100%Z)))
    as (s1 & s2 & H1 & _ & _ & _ & Hu1 & Hu0 & Hl1 & _ & Hd & Hh & _).
  - reflexivity.
  - reflexivity.
  - reflexivity.
  - reflexivity.
  - lia.
  - exists s1, s2. repeat split; assumption.
Defined.

(** ** Resetting twice *)

(** X14: for a handle that is empty, or that is the last owner of its
    object, a second [reset()] changes nothing: resetting twice gives
    the state that resetting once gives.  In that state the handle is
    empty; for an empty handle nothing has changed at all, and for a
    last owner the deletion log has grown by exactly one entry, the
    action stored in its control block, and that block has been
    freed. *)
Theorem reset_twice_by_last_owner (this : var) (s : state) (h : SharedPtr) :
  vars s !! this = Some h →
  (∀ l, m_control_block h = Some l →
        ∃ cb, heap s !! l = Some cb ∧ m_count cb = 1%Z) →
  ∃ s', reset this s = Ret tt s' ∧
        (reset this ;; reset this) s = Ret tt s' ∧
        vars s' !! this = Some {| m_control_block := None; m_ptr :=
                                    match m_control_block h with
                                    | Some _ => nullptr
                                    | None => m_ptr h
                                    end |} ∧
        (m_control_block h = None → s' = s) ∧
        (∀ l cb, m_control_block h = Some l → heap s !! l = Some cb →
                 deleted s' = m_deleter cb :: deleted s ∧
                 heap s' = delete l (heap s) ∧
                 avail s' = S (avail s)) ∧
        (length (deleted s') ≤ S (length (deleted s)))%nat.
Proof.
  intros Hx Hlast. unfold bind.
  destruct (m_control_block h) as [l|] eqn:Hcb.
  - destruct (Hlast l eq_refl) as (cb & Hl & Hc).
    rewrite (reset_last_owner this s h l cb Hx Hcb Hl Hc).
    eexists. split; [reflexivity|].
    split.
    { apply (reset_empty_noop this _ empty_handle); [|done].
      cbn. by rewrite lookup_insert_eq. }
    split; [by cbn; rewrite lookup_insert_eq|].
    split; [done|].
    split; [|cbn; lia].
    intros l' cb' [= <-]. rewrite Hl. by intros [= <-].
  - rewrite (reset_empty_noop this s h Hx Hcb).
    exists s. split; [done|].
    split; [by apply (reset_empty_noop this s h)|].
    split; [rewrite Hx; f_equal; destruct h; cbn in *; by subst|].
    split; [done|]. split; [done|]. lia.
Qed.

Lemma reset_twice_by_last_owner_witness :
  ∃ s', reset 0 (sole_owner_state (custom_deleter 7) 0) = Ret tt s' ∧
        (reset 0 ;; reset 0) (sole_owner_state (custom_deleter 7) 0) = Ret tt s' ∧
        vars s' !! 0 = Some {| m_control_block := None; m_ptr := nullptr |} ∧
        deleted s' = [make_deleter (custom_deleter 7) 100%Z] ∧
        heap s' = delete 1%positive (heap (sole_owner_state (custom_deleter 7) 0)).
Proof.
  destruct (reset_twice_by_last_owner 0 (sole_owner_state (custom_deleter 7) 0)
              {| m_control_block := Some 1%positive; m_ptr := 100%Z |})
    as (s' & H1 & H2 & Hv & _ & Hlog & _).
  - reflexivity.
  - intros l [= <-]. eexists. split; reflexivity.
  - destruct (Hlog 1%positive
                (ControlBlock_ctor (make_deleter (custom_deleter 7) 100%Z))
                eq_refl eq_refl) as (Hd & Hh & _).
    exists s'. repeat split; assumption.
Defined.
